(** * UART transmit/receive with FIFO limit interrupts (XMC): main.c

    A shallow embedding of [main.c]: the five C globals, the two
    interrupt handlers [USIC0_0_IRQHandler] (transmit) and
    [USIC0_1_IRQHandler] (receive), and [main], split into its set-up
    part and the body of its [while(1)] loop.

    The vendor calls (XMClib, CMSIS NVIC, the BSP) are not part of the
    program.  Every call is recorded, in program order, in a trace of
    [hal_event]s; the calls that return something take their answer from
    the device part of the state. *)

From stdpp Require Import base list.
From Stdlib Require Import ZArith Lia.

#[local] Open Scope Z_scope.

(** ** Constants and machine integers *)

(** [#define NUM_DATA 9] *)
Definition NUM_DATA : Z := 9.

(** [#define USIC0_0_IRQn_PRIORITY 63] and [#define USIC0_1_IRQn_PRIORITY 62] *)
Definition USIC0_0_IRQn_PRIORITY : Z := 63.
Definition USIC0_1_IRQn_PRIORITY : Z := 62.

(** [uint32_t] and [uint8_t] values are integers reduced modulo the width. *)
Definition uint32 (z : Z) : Z := z mod 2 ^ 32.
Definition uint8 (z : Z) : Z := z mod 2 ^ 8.

(** The two output levels.  Their encoding depends on [UC_SERIES]; the
    program only ever passes one of the two macros on. *)
Inductive uc_series := XMC14 | XMC47.
Inductive level := GPIO_OUTPUT_LEVEL_HIGH | GPIO_OUTPUT_LEVEL_LOW.

Definition level_bits (s : uc_series) (l : level) : Z :=
  match s, l with
  | XMC14, GPIO_OUTPUT_LEVEL_HIGH => 0x10000
  | XMC14, GPIO_OUTPUT_LEVEL_LOW => 0x1
  | XMC47, GPIO_OUTPUT_LEVEL_LOW => 0x10000
  | XMC47, GPIO_OUTPUT_LEVEL_HIGH => 0x1
  end.

Inductive IRQn_Type := USIC0_0_IRQn | USIC0_1_IRQn.
Inductive XMC_USIC_CH_FIFO_SIZE_t := XMC_USIC_CH_FIFO_SIZE_8WORDS.

(** ** The calls into the vendor layer

    One constructor per call the program makes; a call that returns a
    value carries the value returned.  The channel argument is always
    [CYBSP_DEBUG_UART_HW], the pin always the user LED, the event of
    [XMC_USIC_CH_TXFIFO_DisableEvent] always
    [XMC_USIC_CH_TXFIFO_EVENT_CONF_STANDARD]; they are left out. *)
Inductive hal_event :=
  | cybsp_init (success : bool)
  | CY_HALT
  | NVIC_SetPriority (irq : IRQn_Type) (priority : Z)
  | NVIC_EnableIRQ (irq : IRQn_Type)
  | NVIC_DisableIRQ (irq : IRQn_Type)
  | XMC_UART_CH_Start
  | XMC_USIC_CH_TXFIFO_IsFull (answer : bool)
  | XMC_UART_CH_Transmit (data : Z)
  | XMC_USIC_CH_TXFIFO_DisableEvent
  | XMC_USIC_CH_RXFIFO_IsEmpty (answer : bool)
  | XMC_UART_CH_GetReceivedData (data : Z)
  | XMC_USIC_CH_RXFIFO_SetSizeTriggerLimit
      (size : XMC_USIC_CH_FIFO_SIZE_t) (limit : Z)
  | XMC_GPIO_SetOutputLevel (l : level).

(** ** State

    The C globals, then the device as the program can observe it.

    - [stray]: the stores that left [rx_data] (index at or beyond
      [NUM_DATA]), as pairs of index and value.  C gives such a store no
      meaning; the machine performs it and carries on.  What it
      overwrites depends on the memory layout and is not modelled.
    - [bsp_ok]: whether [cybsp_init] will report [CY_RSLT_SUCCESS].
    - [txfull]: the answers [XMC_USIC_CH_TXFIFO_IsFull] will give, in
      order.  When they run out the observation ends there.
    - [rxfifo]: the words the receive FIFO hands out before it reports
      empty, oldest first.
    - [led]: the level last driven on the user LED, if any. *)
Record state := mkState {
  tx_index : Z;
  rx_index : Z;
  flag : Z;
  tx_data : list Z;
  rx_data : list Z;
  stray : list (Z * Z);
  bsp_ok : bool;
  txfull : list bool;
  rxfifo : list Z;
  led : option level;
  trace : list hal_event
}.

Definition set_tx_index (v : Z) (s : state) : state :=
  mkState v (rx_index s) (flag s) (tx_data s) (rx_data s) (stray s)
          (bsp_ok s) (txfull s) (rxfifo s) (led s) (trace s).
Definition set_rx_index (v : Z) (s : state) : state :=
  mkState (tx_index s) v (flag s) (tx_data s) (rx_data s) (stray s)
          (bsp_ok s) (txfull s) (rxfifo s) (led s) (trace s).
Definition set_flag (v : Z) (s : state) : state :=
  mkState (tx_index s) (rx_index s) v (tx_data s) (rx_data s) (stray s)
          (bsp_ok s) (txfull s) (rxfifo s) (led s) (trace s).
Definition set_tx_data (v : list Z) (s : state) : state :=
  mkState (tx_index s) (rx_index s) (flag s) v (rx_data s) (stray s)
          (bsp_ok s) (txfull s) (rxfifo s) (led s) (trace s).
Definition set_rx_data (v : list Z) (s : state) : state :=
  mkState (tx_index s) (rx_index s) (flag s) (tx_data s) v (stray s)
          (bsp_ok s) (txfull s) (rxfifo s) (led s) (trace s).
Definition set_stray (v : list (Z * Z)) (s : state) : state :=
  mkState (tx_index s) (rx_index s) (flag s) (tx_data s) (rx_data s) v
          (bsp_ok s) (txfull s) (rxfifo s) (led s) (trace s).
Definition set_txfull (v : list bool) (s : state) : state :=
  mkState (tx_index s) (rx_index s) (flag s) (tx_data s) (rx_data s) (stray s)
          (bsp_ok s) v (rxfifo s) (led s) (trace s).
Definition set_rxfifo (v : list Z) (s : state) : state :=
  mkState (tx_index s) (rx_index s) (flag s) (tx_data s) (rx_data s) (stray s)
          (bsp_ok s) (txfull s) v (led s) (trace s).
Definition set_led (v : option level) (s : state) : state :=
  mkState (tx_index s) (rx_index s) (flag s) (tx_data s) (rx_data s) (stray s)
          (bsp_ok s) (txfull s) (rxfifo s) v (trace s).
Definition log (e : hal_event) (s : state) : state :=
  mkState (tx_index s) (rx_index s) (flag s) (tx_data s) (rx_data s) (stray s)
          (bsp_ok s) (txfull s) (rxfifo s) (led s) (trace s ++ [e]).

(** The state at reset: the initialisers of the globals ([tx_index = 0],
    [rx_index = 0], [flag = 0], zeroed arrays), nothing received, nothing
    driven, nothing called yet. *)
Definition reset_state (ok : bool) (answers : list bool) : state :=
  mkState 0 0 0 (replicate (Z.to_nat NUM_DATA) 0) (replicate (Z.to_nat NUM_DATA) 0)
          [] ok answers [] None [].

(** ** Computations

    A computation ends in one of three ways: it returns ([Ret]), it is
    still turning in a loop when the observation ends ([Spins]: the fuel
    of a [while], or the answers of the device, ran out), or it has
    reached [CY_HALT] ([Halts]). *)
Inductive outcome (A : Type) :=
  | Ret (a : A) (s : state)
  | Spins (s : state)
  | Halts (s : state).
Arguments Ret {A} a s.
Arguments Spins {A} s.
Arguments Halts {A} s.

Definition M (A : Type) : Type := state → outcome A.

Definition ret {A} (a : A) : M A := λ s, Ret a s.
Definition bind {A B} (m : M A) (f : A → M B) : M B := λ s,
  match m s with
  | Ret a s' => f a s'
  | Spins s' => Spins s'
  | Halts s' => Halts s'
  end.

Declare Scope prog_scope.
Delimit Scope prog_scope with prog.
Notation "x ← y ; z" := (bind y (λ x, z))
  (at level 20, y at level 100, z at level 200, only parsing) : prog_scope.
Notation "x ;; z" := (bind x (λ _, z))
  (at level 100, z at level 200, only parsing, right associativity) : prog_scope.
#[local] Open Scope prog_scope.

Definition get {A} (f : state → A) : M A := λ s, Ret (f s) s.
Definition modify (f : state → state) : M unit := λ s, Ret tt (f s).
Definition call (e : hal_event) : M unit := modify (log e).

(** The state a computation stops in, however it stops. *)
Definition final {A} (o : outcome A) : state :=
  match o with Ret _ s | Spins s | Halts s => s end.

(** [while (cond) body] with a bound on the number of turns. *)
Fixpoint while (fuel : nat) (cond : M bool) (body : M unit) : M unit :=
  match fuel with
  | O => Spins
  | S k => c ← cond; if c then body;; while k cond body else ret tt
  end.

(** [for (i = lo; i < hi; i++) body(i)], for a body that leaves [i] alone. *)
Fixpoint for_from (n : nat) (i : Z) (body : Z → M unit) : M unit :=
  match n with
  | O => ret tt
  | S k => body i;; for_from k (i + 1) body
  end.
Definition for_range (lo hi : Z) (body : Z → M unit) : M unit :=
  for_from (Z.to_nat (hi - lo)) lo body.

(** ** Arrays *)

(** [a[i]] for an index inside the array; outside, C gives the read no
    meaning and the model answers 0 (no handler reads outside). *)
Definition load (a : list Z) (i : Z) : Z := default 0 (a !! Z.to_nat i).

(** [tx_data[i] = v], used with [i < NUM_DATA] only. *)
Definition store_tx (i v : Z) : M unit :=
  modify (λ s, set_tx_data (<[Z.to_nat i := uint8 v]> (tx_data s)) s).

(** [rx_data[i] = v]: the value is cut to [uint8_t]; a store at or beyond
    [NUM_DATA] goes to [stray]. *)
Definition store_rx (i v : Z) : M unit :=
  modify (λ s,
    if i <? NUM_DATA
    then set_rx_data (<[Z.to_nat i := uint8 v]> (rx_data s)) s
    else set_stray (stray s ++ [(i, uint8 v)]) s).

(** ** The vendor calls *)

(** [cybsp_init()]; the result is kept as "is [CY_RSLT_SUCCESS]". *)
Definition hal_cybsp_init : M bool :=
  ok ← get bsp_ok; call (cybsp_init ok);; ret ok.

(** Modelled from the spec: [CY_ASSERT] is declared in [cy_utils.h], which
    is not part of the sources; "Startup/platform-initialization failure
    triggers an unconditional halt (assert/trap) — fatal,
    non-resumable".  A failed assertion reaches [CY_HALT] and nothing
    after it runs. *)
Definition CY_ASSERT (x : bool) : M unit :=
  if x then ret tt else λ s, Halts (log CY_HALT s).

Definition hal_TXFIFO_IsFull : M bool := λ s,
  match txfull s with
  | [] => Spins s
  | b :: rest => Ret b (log (XMC_USIC_CH_TXFIFO_IsFull b) (set_txfull rest s))
  end.

Definition hal_RXFIFO_IsEmpty : M bool := λ s,
  let b := match rxfifo s with [] => true | _ => false end in
  Ret b (log (XMC_USIC_CH_RXFIFO_IsEmpty b) s).

(** Called on a non-empty FIFO only; on an empty one the model hands out 0. *)
Definition hal_GetReceivedData : M Z := λ s,
  match rxfifo s with
  | [] => Ret 0 (log (XMC_UART_CH_GetReceivedData 0) s)
  | d :: rest => Ret d (log (XMC_UART_CH_GetReceivedData d) (set_rxfifo rest s))
  end.

Definition hal_SetOutputLevel (l : level) : M unit :=
  modify (set_led (Some l));; call (XMC_GPIO_SetOutputLevel l).

(** [while(XMC_USIC_CH_TXFIFO_IsFull(CYBSP_DEBUG_UART_HW));] *)
Definition wait_txfifo_not_full : M unit := λ s,
  while (S (length (txfull s))) hal_TXFIFO_IsFull (ret tt) s.

(** ** The handlers and [main]

    [CYBSP_DEBUG_UART_RXFIFO_LIMIT] comes from the generated
    [cycfg_peripherals.h], which is not part of the sources: it is a
    parameter here.  The comment above the receive handler gives its
    value in the shipped configuration, seven. *)
Section Program.

Variable CYBSP_DEBUG_UART_RXFIFO_LIMIT : Z.

(** [USIC0_0_IRQHandler]: the transmit handler. *)
Definition USIC0_0_IRQHandler : M unit :=
  i ← get tx_index;
  if i <? NUM_DATA then
    wait_txfifo_not_full;;
    d ← get (λ s, load (tx_data s) (tx_index s));
    call (XMC_UART_CH_Transmit d);;
    i ← get tx_index;
    modify (set_tx_index (uint32 (i + 1)))
  else
    call XMC_USIC_CH_TXFIFO_DisableEvent;;
    call (NVIC_DisableIRQ USIC0_0_IRQn).

(** The first statement of the receive handler,
    [while(!XMC_USIC_CH_RXFIFO_IsEmpty(..)) rx_data[rx_index++] = XMC_UART_CH_GetReceivedData(..);]
    its condition, its body, and the loop.  The FIFO holds finitely many
    words, so one turn more than its length is fuel enough. *)
Definition rxfifo_not_empty : M bool :=
  e ← hal_RXFIFO_IsEmpty; ret (negb e).

Definition rx_take : M unit :=
  d ← hal_GetReceivedData;
  i ← get rx_index;
  modify (set_rx_index (uint32 (i + 1)));;
  store_rx i d.

Definition drain_rxfifo : M unit := λ s,
  while (S (length (rxfifo s))) rxfifo_not_empty rx_take s.

(** [USIC0_1_IRQHandler]: the receive handler.  [NUM_DATA - rx_index] is
    an [uint32_t] subtraction, and so is the [- 1] after it. *)
Definition USIC0_1_IRQHandler : M unit :=
  drain_rxfifo;;
  i ← get rx_index;
  (if i =? NUM_DATA then modify (set_flag 1) else ret tt);;
  i ← get rx_index;
  if uint32 (NUM_DATA - i) <? CYBSP_DEBUG_UART_RXFIFO_LIMIT then
    call (XMC_USIC_CH_RXFIFO_SetSizeTriggerLimit XMC_USIC_CH_FIFO_SIZE_8WORDS
            (uint32 (uint32 (NUM_DATA - i) - 1)))
  else ret tt.

(** [main] up to its [while(1)]. *)
Definition main_setup : M unit :=
  result ← hal_cybsp_init;
  (if negb result then CY_ASSERT false else ret tt);;
  for_range 0 NUM_DATA (λ i, store_tx i i);;
  call (NVIC_SetPriority USIC0_0_IRQn USIC0_0_IRQn_PRIORITY);;
  call (NVIC_EnableIRQ USIC0_0_IRQn);;
  call (NVIC_EnableIRQ USIC0_1_IRQn);;
  call (NVIC_SetPriority USIC0_1_IRQn USIC0_1_IRQn_PRIORITY);;
  call XMC_UART_CH_Start;;
  wait_txfifo_not_full;;
  i ← get tx_index;
  modify (set_tx_index (uint32 (i + 1)));;
  d ← get (λ s, load (tx_data s) i);
  call (XMC_UART_CH_Transmit d);;
  i ← get rx_index;
  if uint32 (NUM_DATA - i) <? CYBSP_DEBUG_UART_RXFIFO_LIMIT then
    call (XMC_USIC_CH_RXFIFO_SetSizeTriggerLimit XMC_USIC_CH_FIFO_SIZE_8WORDS
            (uint32 (uint32 (NUM_DATA - i) - 1)))
  else ret tt.

(** The [for] loop inside the [if (flag == 1)] of [main]. *)
Definition compare_buffers : M unit :=
  for_range 0 NUM_DATA (λ tmp,
    t ← get (λ s, load (tx_data s) tmp);
    r ← get (λ s, load (rx_data s) tmp);
    if negb (t =? r)
    then hal_SetOutputLevel GPIO_OUTPUT_LEVEL_LOW
    else hal_SetOutputLevel GPIO_OUTPUT_LEVEL_HIGH).

(** One turn of the [while(1)] of [main]. *)
Definition main_loop_body : M unit :=
  f ← get flag;
  if f =? 1 then
    compare_buffers;;
    modify (set_flag 0)
  else ret tt.

Fixpoint turns (n : nat) (body : M unit) : M unit :=
  match n with
  | O => ret tt
  | S k => body;; turns k body
  end.

(** [main], observed for [n] turns of its [while(1)] with no interrupt
    in between. *)
Definition main (n : nat) : M unit :=
  main_setup;; turns n main_loop_body.

End Program.

Arguments uint32 : simpl never.
Arguments uint8 : simpl never.
Arguments NUM_DATA : simpl never.

(** ** The system at work

    Words arriving in the receive FIFO (the device's doing, not the
    program's), and the three things that happen once [main] is in its
    loop: a transmit interrupt, a receive interrupt after a burst of
    words, a turn of the loop.  Handlers and loop turns are taken one at
    a time; an interrupt in the middle of a turn is not modelled. *)
Definition rx_arrive (ws : list Z) : M unit :=
  modify (λ s, set_rxfifo (rxfifo s ++ ws) s).

Inductive event :=
  | TxIrq
  | RxIrq (ws : list Z)
  | MainTurn.

Definition step (LIMIT : Z) (e : event) : M unit :=
  match e with
  | TxIrq => USIC0_0_IRQHandler
  | RxIrq ws => rx_arrive ws;; USIC0_1_IRQHandler LIMIT
  | MainTurn => main_loop_body
  end.

Fixpoint run (LIMIT : Z) (es : list event) : M unit :=
  match es with
  | [] => ret tt
  | e :: rest => step LIMIT e;; run LIMIT rest
  end.

(** ** Vocabulary of the statements *)

(** The calls of a busy wait that sees the FIFO full [k] times. *)
Definition full_polls (k : nat) : list hal_event :=
  replicate k (XMC_USIC_CH_TXFIFO_IsFull true) ++ [XMC_USIC_CH_TXFIFO_IsFull false].

(** Several calls at once. *)
Definition logs (es : list hal_event) (s : state) : state :=
  mkState (tx_index s) (rx_index s) (flag s) (tx_data s) (rx_data s) (stray s)
          (bsp_ok s) (txfull s) (rxfifo s) (led s) (trace s ++ es).

(** The calls of a drain loop that finds the words [ws] in the FIFO. *)
Definition drain_calls (ws : list Z) : list hal_event :=
  concat ((λ w, [XMC_USIC_CH_RXFIFO_IsEmpty false; XMC_UART_CH_GetReceivedData w]) <$> ws)
  ++ [XMC_USIC_CH_RXFIFO_IsEmpty true].

(** The state after one turn of the drain loop that takes the word [w]
    and leaves [rest] in the FIFO. *)
Definition drain_turn (w : Z) (rest : list Z) (s : state) : state :=
  let s1 := log (XMC_UART_CH_GetReceivedData w)
              (set_rxfifo rest (log (XMC_USIC_CH_RXFIFO_IsEmpty false) s)) in
  let s2 := set_rx_index (uint32 (rx_index s + 1)) s1 in
  if rx_index s <? NUM_DATA
  then set_rx_data (<[Z.to_nat (rx_index s) := uint8 w]> (rx_data s)) s2
  else set_stray (stray s ++ [(rx_index s, uint8 w)]) s2.

(** The array [l] with the values [xs] written from index [c] on. *)
Definition overwrite (c : nat) (xs l : list Z) : list Z :=
  take c l ++ xs ++ drop (c + length xs) l.

(** What the drain loop leaves behind ([d]) when it starts in [s] with
    the words [ws] in the FIFO. *)
Definition drained (ws : list Z) (s d : state) : Prop :=
  tx_index d = tx_index s ∧ flag d = flag s ∧ tx_data d = tx_data s ∧
  bsp_ok d = bsp_ok s ∧ txfull d = txfull s ∧ led d = led s ∧
  rxfifo d = [] ∧
  trace d = trace s ++ drain_calls ws ∧
  (0 ≤ rx_index s < 2 ^ 32 →
   rx_index d = uint32 (rx_index s + Z.of_nat (length ws))) ∧
  (0 ≤ rx_index s → rx_index s + Z.of_nat (length ws) ≤ NUM_DATA →
   stray d = stray s ∧
   (length (rx_data s) = Z.to_nat NUM_DATA →
    rx_data d = overwrite (Z.to_nat (rx_index s)) (uint8 <$> ws) (rx_data s))).

(** The second and third statements of the receive handler, on the state
    the drain loop left. *)
Definition rx_signal (d : state) : state :=
  if rx_index d =? NUM_DATA then set_flag 1 d else d.

Definition rx_adjust (LIMIT : Z) (d : state) : state :=
  if uint32 (NUM_DATA - rx_index d) <? LIMIT
  then log (XMC_USIC_CH_RXFIFO_SetSizeTriggerLimit XMC_USIC_CH_FIFO_SIZE_8WORDS
              (uint32 (uint32 (NUM_DATA - rx_index d) - 1))) d
  else d.

(** What one run of the receive handler leaves behind ([s']) when it
    starts in [s] with the words [ws] in the FIFO. *)
Definition received (ws : list Z) (s s' : state) : Prop :=
  tx_index s' = tx_index s ∧ tx_data s' = tx_data s ∧
  bsp_ok s' = bsp_ok s ∧ txfull s' = txfull s ∧ led s' = led s ∧
  rxfifo s' = [] ∧
  flag s' = (if rx_index s' =? NUM_DATA then 1 else flag s) ∧
  (0 ≤ rx_index s < 2 ^ 32 →
   rx_index s' = uint32 (rx_index s + Z.of_nat (length ws))) ∧
  (0 ≤ rx_index s → rx_index s + Z.of_nat (length ws) ≤ NUM_DATA →
   stray s' = stray s ∧
   (length (rx_data s) = Z.to_nat NUM_DATA →
    rx_data s' = overwrite (Z.to_nat (rx_index s)) (uint8 <$> ws) (rx_data s))).

(** The level the comparison loop drives for index [i], on the arrays
    [tx] and [rx]. *)
Definition verdict (tx rx : list Z) (i : Z) : level :=
  if load tx i =? load rx i
  then GPIO_OUTPUT_LEVEL_HIGH
  else GPIO_OUTPUT_LEVEL_LOW.

(** The state after driving the levels [ls] one after the other. *)
Definition indicate (ls : list level) (s : state) : state :=
  mkState (tx_index s) (rx_index s) (flag s) (tx_data s) (rx_data s) (stray s)
          (bsp_ok s) (txfull s) (rxfifo s)
          (match last ls with Some l => Some l | None => led s end)
          (trace s ++ (XMC_GPIO_SetOutputLevel <$> ls)).

(** The calls [main] makes between [cybsp_init] and its busy wait. *)
Definition arm_calls : list hal_event :=
  [NVIC_SetPriority USIC0_0_IRQn USIC0_0_IRQn_PRIORITY;
   NVIC_EnableIRQ USIC0_0_IRQn;
   NVIC_EnableIRQ USIC0_1_IRQn;
   NVIC_SetPriority USIC0_1_IRQn USIC0_1_IRQn_PRIORITY;
   XMC_UART_CH_Start].

(** [s'] differs from [s] in the answers left and in the trace only. *)
Definition only_polled (s s' : state) : Prop :=
  tx_index s' = tx_index s ∧ rx_index s' = rx_index s ∧ flag s' = flag s ∧
  tx_data s' = tx_data s ∧ rx_data s' = rx_data s ∧ stray s' = stray s ∧
  bsp_ok s' = bsp_ok s ∧ rxfifo s' = rxfifo s ∧ led s' = led s.

(** The state [main] has reached when it enters its busy wait, [t] being
    the transmit buffer it has filled; and the state it leaves the set-up
    in, [w] being the state after the wait. *)
Definition armed (t : list Z) (s : state) : state :=
  logs arm_calls (set_tx_data t (log (cybsp_init true) s)).

Definition seeded (LIMIT : Z) (w : state) : state :=
  rx_adjust LIMIT
    (log (XMC_UART_CH_Transmit (load (tx_data w) (tx_index w)))
         (set_tx_index (uint32 (tx_index w + 1)) w)).

(** The state of a failed start. *)
Definition halted (s : state) : state :=
  log CY_HALT (log (cybsp_init false) s).

(** A run of the receive handler that leaves [rx_index == NUM_DATA]: the
    shipped limit of seven, eight words taken by an earlier run, and the
    ninth word just arrived. *)
Definition ninth_word_pending : state :=
  set_rxfifo [8]
    (final (run 7 [RxIrq [0; 1; 2; 3; 4; 5; 6; 7]] (reset_state true []))).

(** A first cycle as the shipped configuration runs it, and the state
    re-armed for a second one: both cursors back to 0, the flag clear. *)
Definition first_cycle_start : state :=
  final (main_setup 7 (reset_state true [false])).

Definition rearmed (t : state) : state :=
  set_flag 0 (set_rx_index 0 (set_tx_index 0 t)).

(** ** Reading the trace *)

(** The bytes pushed into the transmit FIFO, the words taken out of the
    receive FIFO, and the levels driven on the LED, each in call order. *)
Definition pushed (tr : list hal_event) : list Z :=
  omap (λ e, match e with XMC_UART_CH_Transmit d => Some d | _ => None end) tr.

Definition taken (tr : list hal_event) : list Z :=
  omap (λ e, match e with XMC_UART_CH_GetReceivedData d => Some d | _ => None end) tr.

Definition levels (tr : list hal_event) : list level :=
  omap (λ e, match e with XMC_GPIO_SetOutputLevel l => Some l | _ => None end) tr.

(** The answers of a device that is full [k] times before each of
    several pushes, one [k] per push. *)
Definition answers (ks : list nat) : list bool :=
  concat ((λ k, replicate k true ++ [false]) <$> ks).

(** [main] with its interrupts: the set-up, then a schedule. *)
Definition system (LIMIT : Z) (es : list event) : M unit :=
  main_setup LIMIT;; run LIMIT es.

(** The words a schedule brings to the receive FIFO. *)
Definition words_of (es : list event) : list Z :=
  concat (omap (λ e, match e with RxIrq ws => Some ws | _ => None end) es).

(** The transmit side is in order: the buffer is [T], and the bytes
    pushed so far are its first [tx_index]. *)
Definition tx_in_order (T : list Z) (s : state) : Prop :=
  0 ≤ tx_index s ≤ NUM_DATA ∧ tx_data s = T ∧
  pushed (trace s) = take (Z.to_nat (tx_index s)) T.


(** ** Words arriving one at a time

    The header of the receive handler says when it runs: "called
    everytime the number of elements in the RX FIFO exceeds above Rx FIFO
    Limit".  The limit in force is the configured one until the program
    reprograms it, then the one of its last reprogramming call.
    [deliver] is the arrival of one word under that rule, with the
    handler run to its end before the next word arrives. *)
Definition rx_limit_now (LIMIT : Z) (tr : list hal_event) : Z :=
  fold_left (λ m e, match e with
                    | XMC_USIC_CH_RXFIFO_SetSizeTriggerLimit _ l => l
                    | _ => m
                    end) tr LIMIT.

Definition deliver (LIMIT : Z) (w : Z) : M unit :=
  rx_arrive [w];;
  λ s, if rx_limit_now LIMIT (trace s) <? Z.of_nat (length (rxfifo s))
       then USIC0_1_IRQHandler LIMIT s
       else Ret tt s.

Fixpoint deliver_each (LIMIT : Z) (ws : list Z) : M unit :=
  match ws with
  | [] => ret tt
  | w :: rest => deliver LIMIT w;; deliver_each LIMIT rest
  end.

(** The receive side as four numbers: cursor, words waiting in the FIFO,
    limit in force, flag; and what one arrival does to them. *)
Definition rx_gauge (LIMIT : Z) (s : state) : Z * Z * Z * Z :=
  (rx_index s, Z.of_nat (length (rxfifo s)), rx_limit_now LIMIT (trace s), flag s).

Definition gauge_deliver (LIMIT : Z) (g : Z * Z * Z * Z) : Z * Z * Z * Z :=
  let '(c, v, m, f) := g in
  if m <? v + 1 then
    let c' := c + (v + 1) in
    (c', 0,
     if uint32 (NUM_DATA - c') <? LIMIT then uint32 (uint32 (NUM_DATA - c') - 1) else m,
     if c' =? NUM_DATA then 1 else f)
  else (c, v + 1, m, f).

(** * Properties *)

(** ** Machine integers *)

Lemma uint32_range z : 0 ≤ uint32 z < 2 ^ 32.
Proof. unfold uint32. apply Z.mod_pos_bound. lia. Qed.

Lemma uint32_small z : 0 ≤ z < 2 ^ 32 → uint32 z = z.
Proof. intros. unfold uint32. by apply Z.mod_small. Qed.

Lemma uint32_succ_add z n :
  uint32 (uint32 (z + 1) + n) = uint32 (z + (1 + n)).
Proof.
  unfold uint32. rewrite Zplus_mod_idemp_l. f_equal. lia.
Qed.

(** The two levels are told apart on both series. *)
Lemma level_bits_inj series l1 l2 :
  level_bits series l1 = level_bits series l2 → l1 = l2.
Proof. by destruct series, l1, l2. Qed.

(** ** Arrays *)

Lemma overwrite_nil c l : overwrite c [] l = l.
Proof. unfold overwrite. simpl. by rewrite Nat.add_0_r, take_drop. Qed.

Lemma overwrite_insert c x xs l :
  (c < length l)%nat →
  overwrite (S c) xs (<[c := x]> l) = overwrite c (x :: xs) l.
Proof.
  intros Hc. unfold overwrite.
  rewrite (take_S_r _ _ x) by (by apply list_lookup_insert_eq).
  rewrite take_insert_ge by lia. rewrite drop_insert_lt by lia.
  rewrite <- app_assoc. simpl. by rewrite Nat.add_succ_r.
Qed.

Lemma overwrite_overwrite c xs ys l :
  (c + length xs ≤ length l)%nat →
  overwrite (c + length xs) ys (overwrite c xs l) = overwrite c (xs ++ ys) l.
Proof.
  intros Hc. unfold overwrite.
  rewrite (app_assoc (take c l)).
  rewrite take_app_length' by (rewrite length_app, length_take_le; lia).
  rewrite drop_app_add' by (rewrite length_app, length_take_le; lia).
  rewrite drop_drop, length_app, <- !app_assoc.
  by rewrite Nat.add_assoc.
Qed.

Lemma overwrite_all xs l : length xs = length l → overwrite 0 xs l = xs.
Proof.
  intros E. unfold overwrite. simpl. rewrite drop_ge by lia. apply app_nil_r.
Qed.

Lemma length_overwrite c xs l :
  (c + length xs ≤ length l)%nat → length (overwrite c xs l) = length l.
Proof.
  intros Hc. unfold overwrite.
  rewrite !length_app, length_take_le, length_drop by lia. lia.
Qed.

(** ** Sequencing *)

Lemma bind_Ret {A B} (m : M A) (f : A → M B) s a s1 :
  m s = Ret a s1 → bind m f s = f a s1.
Proof. intros E. unfold bind. by rewrite E. Qed.

(** ** The busy wait on the transmit FIFO *)

Lemma while_full_returns k : ∀ fuel rest s,
  txfull s = replicate k true ++ false :: rest →
  (k < fuel)%nat →
  while fuel hal_TXFIFO_IsFull (ret tt) s
  = Ret tt (logs (full_polls k) (set_txfull rest s)).
Proof.
  induction k as [|k IH]; intros fuel rest s Hs Hf;
    (destruct fuel as [|fuel]; [lia|]); simpl in Hs |- *;
    unfold bind at 1, hal_TXFIFO_IsFull at 1; rewrite Hs.
  - reflexivity.
  - unfold bind at 1, ret at 1.
    rewrite (IH fuel rest); [|done|lia].
    unfold logs, full_polls, log, set_txfull; simpl.
    by rewrite <- app_assoc.
Qed.

(** When the device stops answering "full" after [k] polls, the wait
    returns, having polled [k + 1] times and done nothing else. *)
Lemma wait_returns k rest s :
  txfull s = replicate k true ++ false :: rest →
  wait_txfifo_not_full s = Ret tt (logs (full_polls k) (set_txfull rest s)).
Proof.
  intros Hs. unfold wait_txfifo_not_full. apply while_full_returns; [done|].
  rewrite Hs, length_app, length_replicate. simpl. lia.
Qed.

(** While the device keeps answering "full" the wait does not return. *)
Lemma while_full_spins k : ∀ fuel s,
  txfull s = replicate k true →
  ∃ s', while fuel hal_TXFIFO_IsFull (ret tt) s = Spins s'
        ∧ tx_index s' = tx_index s.
Proof.
  induction k as [|k IH]; intros fuel s Hs;
    (destruct fuel as [|fuel]; [by exists s|]); simpl in Hs |- *;
    unfold bind at 1, hal_TXFIFO_IsFull at 1; rewrite Hs.
  - by exists s.
  - unfold bind at 1, ret at 1.
    destruct (IH fuel (log (XMC_USIC_CH_TXFIFO_IsFull true)
                           (set_txfull (replicate k true) s))) as (s' & -> & E);
      [done|].
    by exists s'.
Qed.

(** ** The drain loop of the receive handler *)

Lemma drain_step fuel w rest s :
  rxfifo s = w :: rest →
  while (S fuel) rxfifo_not_empty rx_take s
  = while fuel rxfifo_not_empty rx_take (drain_turn w rest s).
Proof.
  intros Hs. simpl.
  unfold bind at 1, rxfifo_not_empty at 1.
  unfold bind at 1, hal_RXFIFO_IsEmpty at 1. rewrite Hs.
  unfold ret at 1. simpl.
  unfold bind at 1, rx_take at 1. unfold bind at 1, hal_GetReceivedData at 1.
  simpl. rewrite Hs.
  unfold bind, get, modify, store_rx, drain_turn. simpl.
  by destruct (rx_index s <? NUM_DATA).
Qed.

Lemma drain_stop fuel s :
  rxfifo s = [] →
  while (S fuel) rxfifo_not_empty rx_take s
  = Ret tt (log (XMC_USIC_CH_RXFIFO_IsEmpty true) s).
Proof.
  intros Hs. simpl.
  unfold bind at 1, rxfifo_not_empty at 1.
  unfold bind at 1, hal_RXFIFO_IsEmpty at 1. by rewrite Hs.
Qed.

Lemma drain_loop ws : ∀ fuel s,
  rxfifo s = ws → (length ws < fuel)%nat →
  ∃ d, while fuel rxfifo_not_empty rx_take s = Ret tt d ∧ drained ws s d.
Proof.
  induction ws as [|w rest IH]; intros fuel s Hs Hf;
    (destruct fuel as [|fuel]; [simpl in Hf; lia|]).
  - rewrite drain_stop by done. eexists; split; [done|].
    unfold drained; simpl. repeat split; try done.
    + intros. rewrite Z.add_0_r. by rewrite uint32_small.
    + intros _. apply eq_sym, overwrite_nil.
  - rewrite (drain_step _ w rest) by done.
    destruct (IH fuel (drain_turn w rest s)) as (d & -> & Hd).
    { unfold drain_turn. by destruct (rx_index s <? NUM_DATA). }
    { simpl in Hf. lia. }
    exists d; split; [done|].
    destruct Hd as (H1 & H2 & H3 & H4 & H5 & H6 & H7 & H8 & H9 & H10).
    assert (Hi : rx_index (drain_turn w rest s) = uint32 (rx_index s + 1)).
    { unfold drain_turn. by destruct (rx_index s <? NUM_DATA). }
    unfold drained. split_and!.
    1-6: etrans; [eassumption|]; unfold drain_turn;
      by destruct (rx_index s <? NUM_DATA).
    + done.
    + rewrite H8. unfold drain_turn, drain_calls.
      destruct (rx_index s <? NUM_DATA); simpl;
        by rewrite <- !app_assoc.
    + intros Hr. rewrite H9, Hi by (rewrite Hi; apply uint32_range).
      rewrite uint32_succ_add. f_equal. simpl length. lia.
    + intros H0 Hle. simpl length in Hle.
      assert (Hlt : rx_index s < NUM_DATA) by lia.
      assert (Hi' : rx_index (drain_turn w rest s) = rx_index s + 1).
      { rewrite Hi. apply uint32_small. unfold NUM_DATA in Hlt. lia. }
      assert (Hst : stray (drain_turn w rest s) = stray s).
      { unfold drain_turn. by rewrite (proj2 (Z.ltb_lt _ _) Hlt). }
      assert (Hrx : rx_data (drain_turn w rest s)
                    = <[Z.to_nat (rx_index s) := uint8 w]> (rx_data s)).
      { unfold drain_turn. by rewrite (proj2 (Z.ltb_lt _ _) Hlt). }
      destruct H10 as [Hs' Hd']; [rewrite Hi'; lia ..|].
      split; [congruence|].
      intros Hlen. rewrite Hd' by (by rewrite Hrx, length_insert).
      rewrite Hi', Hrx.
      replace (Z.to_nat (rx_index s + 1)) with (S (Z.to_nat (rx_index s))) by lia.
      apply overwrite_insert. rewrite Hlen. lia.
Qed.

(** The drain loop always returns. *)
Lemma drain_returns s :
  ∃ d, drain_rxfifo s = Ret tt d ∧ drained (rxfifo s) s d.
Proof. unfold drain_rxfifo. apply drain_loop; [done|lia]. Qed.

Lemma drain_final s :
  drain_rxfifo s = Ret tt (final (drain_rxfifo s))
  ∧ drained (rxfifo s) s (final (drain_rxfifo s)).
Proof. destruct (drain_returns s) as (d & -> & Hd). done. Qed.

(** ** The receive handler: drain, then signal, then adjust *)

Lemma rx_handler_eq LIMIT s :
  USIC0_1_IRQHandler LIMIT s
  = Ret tt (rx_adjust LIMIT (rx_signal (final (drain_rxfifo s)))).
Proof.
  destruct (drain_final s) as [E _]. revert E.
  generalize (final (drain_rxfifo s)); intros d E.
  unfold USIC0_1_IRQHandler, bind at 1. rewrite E.
  unfold bind, get, modify, ret, call, rx_adjust, rx_signal.
  destruct (rx_index d =? NUM_DATA); simpl;
    by destruct (uint32 (NUM_DATA - rx_index d) <? LIMIT).
Qed.

(** C2, as stated, fails: in the run that takes the ninth word the drain
    loop leaves [rx_index == NUM_DATA], the flag is set, and the trigger
    limit is reprogrammed all the same, with [(9 - 9) - 1] taken in
    [uint32_t], that is 4294967295. *)
Lemma rx_adjust_reached_at_completion :
  let d := final (drain_rxfifo ninth_word_pending) in
  let s' := final (USIC0_1_IRQHandler 7 ninth_word_pending) in
  rx_index d = NUM_DATA
  ∧ flag s' = 1
  ∧ trace s' = trace d ++ [XMC_USIC_CH_RXFIFO_SetSizeTriggerLimit
                             XMC_USIC_CH_FIFO_SIZE_8WORDS 4294967295].
Proof. vm_compute. done. Qed.

(** C2, amended: when the drain loop leaves [rx_index == NUM_DATA] the
    handler sets the flag first and then, the completion check not
    standing in the way, evaluates the threshold test with zero bytes
    remaining: for a positive limit it reprograms the trigger limit,
    passing [(NUM_DATA - rx_index) - 1] computed in [uint32_t]
    (4294967295); only for a limit of zero or less is the call skipped. *)
Theorem rx_completion_then_adjust LIMIT s :
  let d := final (drain_rxfifo s) in
  rx_index d = NUM_DATA →
  (0 < LIMIT →
   USIC0_1_IRQHandler LIMIT s
   = Ret tt (log (XMC_USIC_CH_RXFIFO_SetSizeTriggerLimit
                    XMC_USIC_CH_FIFO_SIZE_8WORDS 4294967295)
                 (set_flag 1 d)))
  ∧ (LIMIT ≤ 0 → USIC0_1_IRQHandler LIMIT s = Ret tt (set_flag 1 d)).
Proof.
  intros d Hd. rewrite rx_handler_eq. fold d.
  unfold rx_signal. rewrite Hd, Z.eqb_refl.
  unfold rx_adjust. simpl rx_index. rewrite Hd, Z.sub_diag.
  change (uint32 0) with 0. change (uint32 (0 - 1)) with 4294967295.
  split; intros HL.
  - by rewrite (proj2 (Z.ltb_lt _ _) HL).
  - by rewrite (proj2 (Z.ltb_ge _ _) HL).
Qed.

Lemma rx_completion_then_adjust_witness :
  rx_index (final (drain_rxfifo ninth_word_pending)) = NUM_DATA
  ∧ USIC0_1_IRQHandler 7 ninth_word_pending
    = Ret tt (log (XMC_USIC_CH_RXFIFO_SetSizeTriggerLimit
                     XMC_USIC_CH_FIFO_SIZE_8WORDS 4294967295)
                  (set_flag 1 (final (drain_rxfifo ninth_word_pending)))).
Proof.
  split; [reflexivity|].
  apply (rx_completion_then_adjust 7 ninth_word_pending); [reflexivity|lia].
Defined.

Lemma rx_signal_adjust_fields LIMIT d :
  let s' := rx_adjust LIMIT (rx_signal d) in
  tx_index s' = tx_index d ∧ rx_index s' = rx_index d ∧
  tx_data s' = tx_data d ∧ rx_data s' = rx_data d ∧ stray s' = stray d ∧
  bsp_ok s' = bsp_ok d ∧ txfull s' = txfull d ∧ rxfifo s' = rxfifo d ∧
  led s' = led d ∧
  flag s' = (if rx_index d =? NUM_DATA then 1 else flag d).
Proof.
  unfold rx_adjust, rx_signal.
  destruct (rx_index d =? NUM_DATA); simpl;
    by destruct (uint32 (NUM_DATA - rx_index d) <? LIMIT).
Qed.

Lemma rx_handler_received LIMIT s :
  ∃ s', USIC0_1_IRQHandler LIMIT s = Ret tt s' ∧ received (rxfifo s) s s'.
Proof.
  rewrite rx_handler_eq. eexists; split; [done|].
  destruct (drain_final s) as [_ Hd]. revert Hd.
  generalize (final (drain_rxfifo s)); intros d Hd.
  destruct Hd as (H1 & H2 & H3 & H4 & H5 & H6 & H7 & H8 & H9 & H10).
  destruct (rx_signal_adjust_fields LIMIT d)
    as (F1 & F2 & F3 & F4 & F5 & F6 & F7 & F8 & F9 & F10).
  unfold received. rewrite F1, F2, F3, F4, F5, F6, F7, F8, F9, F10, H2.
  split_and!; try congruence; done.
Qed.

Lemma rx_irq_received LIMIT ws s :
  ∃ s', step LIMIT (RxIrq ws) s = Ret tt s' ∧ received (rxfifo s ++ ws) s s'.
Proof.
  destruct (rx_handler_received LIMIT (set_rxfifo (rxfifo s ++ ws) s))
    as (s' & E & H).
  exists s'. split; [|done].
  unfold step, bind, rx_arrive, modify. done.
Qed.

(** ** Receive sessions *)

Lemma run_cons LIMIT e es s s1 :
  step LIMIT e s = Ret tt s1 → run LIMIT (e :: es) s = run LIMIT es s1.
Proof. intros E. simpl. unfold bind. by rewrite E. Qed.

(** A session that delivers no more than the array still has room for:
    the cursor advances by the number of words delivered, the words land
    in [rx_data] one after the other, nothing is stored elsewhere, and
    the flag is up at the end when the array is full. *)
Lemma rx_run_in_bounds LIMIT bursts : ∀ s,
  rxfifo s = [] → 0 ≤ rx_index s →
  rx_index s + Z.of_nat (length (concat bursts)) ≤ NUM_DATA →
  ∃ s', run LIMIT (RxIrq <$> bursts) s = Ret tt s'
    ∧ rx_index s' = rx_index s + Z.of_nat (length (concat bursts))
    ∧ stray s' = stray s ∧ rxfifo s' = []
    ∧ tx_index s' = tx_index s ∧ tx_data s' = tx_data s ∧ led s' = led s
    ∧ (length (rx_data s) = Z.to_nat NUM_DATA →
       rx_data s' = overwrite (Z.to_nat (rx_index s))
                      (uint8 <$> concat bursts) (rx_data s))
    ∧ (bursts ≠ [] → rx_index s' = NUM_DATA → flag s' = 1).
Proof.
  induction bursts as [|ws rest IH]; intros s Hf H0 Hle.
  - exists s. simpl. rewrite Z.add_0_r, overwrite_nil. done.
  - simpl in Hle. rewrite length_app in Hle.
    destruct (rx_irq_received LIMIT ws s) as (s1 & E1 & R).
    rewrite Hf in R. simpl in R.
    destruct R as (R1 & R2 & R3 & R4 & R5 & R6 & R7 & R8 & R9).
    assert (Hi : rx_index s1 = rx_index s + Z.of_nat (length ws)).
    { rewrite R8 by (unfold NUM_DATA in Hle; lia).
      apply uint32_small. unfold NUM_DATA in Hle. lia. }
    destruct R9 as [R9 R10]; [lia ..|].
    destruct (IH s1) as (s' & E' & I1 & I2 & I3 & I4 & I5 & I6 & I7 & I8);
      [done|lia|lia|].
    exists s'. rewrite fmap_cons, (run_cons _ _ _ _ _ E1).
    split; [done|]. simpl concat. rewrite length_app.
    split_and!; try congruence.
    + lia.
    + intros Hlen. rewrite I7, R10, Hi by
        (rewrite ?R10 by done; rewrite ?length_overwrite;
         rewrite ?length_fmap; lia).
      rewrite fmap_app.
      replace (Z.to_nat (rx_index s + Z.of_nat (length ws)))
        with (Z.to_nat (rx_index s) + length (uint8 <$> ws))%nat
        by (rewrite length_fmap; lia).
      apply overwrite_overwrite. rewrite length_fmap. lia.
    + intros _ HN. destruct rest as [|ws' rest'].
      * simpl in E'. injection E' as <-. rewrite R7. by rewrite HN.
      * by apply I8.
Qed.

Lemma length_concat_take (bursts : list (list Z)) k :
  (length (concat (take k bursts)) ≤ length (concat bursts))%nat.
Proof.
  rewrite <- (take_drop k bursts) at 2. rewrite concat_app, length_app. lia.
Qed.

(** C3, as stated, fails: from [rx_index == 0], a burst of eight words
    and then one of two leave the cursor at 10, beyond [NUM_DATA], and
    the tenth word was stored at index 9, outside [rx_data]. *)
Lemma rx_cursor_passes_NUM_DATA :
  let s := reset_state true [] in
  let s' := final (run 7 [RxIrq [0; 1; 2; 3; 4; 5; 6; 7]; RxIrq [8; 9]] s) in
  rx_index s = 0
  ∧ rx_index s' = 10
  ∧ ¬ (0 ≤ rx_index s' ≤ NUM_DATA)
  ∧ stray s' = [(9, 9)].
Proof. vm_compute. split_and!; try done. intros [_ H]. by apply H. Qed.

(** C3, amended: in a sequence of receive handler runs that starts from
    [rx_index == 0] and in which the FIFO hands out at most [NUM_DATA]
    words in total, [0 <= rx_index <= NUM_DATA] holds before and after
    every run, the cursor being the number of words taken so far, and no
    store leaves [rx_data].  (The handler itself puts no bound on the
    cursor.) *)
Theorem rx_cursor_bounded LIMIT bursts s k :
  rx_index s = 0 → rxfifo s = [] →
  Z.of_nat (length (concat bursts)) ≤ NUM_DATA →
  ∃ s', run LIMIT (RxIrq <$> take k bursts) s = Ret tt s'
    ∧ 0 ≤ rx_index s' ≤ NUM_DATA
    ∧ rx_index s' = Z.of_nat (length (concat (take k bursts)))
    ∧ stray s' = stray s.
Proof.
  intros H0 Hf Hle.
  pose proof (length_concat_take bursts k) as Hk.
  destruct (rx_run_in_bounds LIMIT (take k bursts) s)
    as (s' & E & I1 & I2 & _); [done|lia|lia|].
  exists s'. rewrite H0 in I1. split_and!; try done; lia.
Qed.

Lemma rx_cursor_bounded_witness :
  ∃ s', run 7 (RxIrq <$> take 1 [[0; 1; 2; 3; 4; 5; 6; 7]; [8]])
            (reset_state true []) = Ret tt s'
    ∧ 0 ≤ rx_index s' ≤ NUM_DATA
    ∧ rx_index s'
      = Z.of_nat (length (concat (take 1 [[0; 1; 2; 3; 4; 5; 6; 7]; [8]])))
    ∧ stray s' = stray (reset_state true []).
Proof.
  apply (rx_cursor_bounded 7 [[0; 1; 2; 3; 4; 5; 6; 7]; [8]]
           (reset_state true []) 1%nat);
    [reflexivity | reflexivity | vm_compute; discriminate].
Defined.

(** ** The loops of [main] *)

Lemma fill_loop n : ∀ i s,
  ∃ t, for_from n i (λ i, store_tx i i) s = Ret tt (set_tx_data t s)
    ∧ (0 ≤ i → (Z.to_nat i + n ≤ length (tx_data s))%nat →
       t = overwrite (Z.to_nat i) (uint8 <$> seqZ i (Z.of_nat n)) (tx_data s)).
Proof.
  induction n as [|n IH]; intros i s.
  - exists (tx_data s). split; [by destruct s|].
    intros _ _. apply eq_sym, overwrite_nil.
  - destruct (IH (i + 1) (set_tx_data (<[Z.to_nat i := uint8 i]> (tx_data s)) s))
      as (t & E & Ht).
    exists t. split.
    + simpl. unfold bind at 1, store_tx at 1, modify at 1. by rewrite E.
    + intros H0 Hlen. rewrite Ht; [|lia|simpl; rewrite length_insert; lia].
      simpl tx_data.
      replace (Z.to_nat (i + 1)) with (S (Z.to_nat i)) by lia.
      rewrite overwrite_insert by lia.
      rewrite (seqZ_cons i (Z.of_nat (S n))) by lia.
      replace (Z.pred (Z.of_nat (S n))) with (Z.of_nat n) by lia.
      by replace (Z.succ i) with (i + 1) by lia.
Qed.

Lemma compare_loop n : ∀ i s,
  for_from n i (λ tmp,
    bind (get (λ s, load (tx_data s) tmp)) (λ t,
    bind (get (λ s, load (rx_data s) tmp)) (λ r,
      if negb (t =? r)
      then hal_SetOutputLevel GPIO_OUTPUT_LEVEL_LOW
      else hal_SetOutputLevel GPIO_OUTPUT_LEVEL_HIGH))) s
  = Ret tt (indicate (verdict (tx_data s) (rx_data s) <$> seqZ i (Z.of_nat n)) s).
Proof.
  induction n as [|n IH]; intros i s.
  - simpl. unfold ret, indicate. simpl. rewrite app_nil_r. by destruct s.
  - rewrite (seqZ_cons i (Z.of_nat (S n))) by lia. rewrite fmap_cons.
    replace (Z.pred (Z.of_nat (S n))) with (Z.of_nat n) by lia.
    replace (Z.succ i) with (i + 1) by lia.
    simpl for_from. unfold bind at 1.
    assert (E : bind (get (λ s, load (tx_data s) i)) (λ t,
                bind (get (λ s, load (rx_data s) i)) (λ r,
                  if negb (t =? r)
                  then hal_SetOutputLevel GPIO_OUTPUT_LEVEL_LOW
                  else hal_SetOutputLevel GPIO_OUTPUT_LEVEL_HIGH)) s
                = Ret tt (indicate [verdict (tx_data s) (rx_data s) i] s)).
    { unfold bind, get, verdict, hal_SetOutputLevel, bind, modify, call, modify.
      by destruct (load (tx_data s) i =? load (rx_data s) i). }
    rewrite E, IH. f_equal.
    unfold indicate, verdict. simpl.
    rewrite last_cons, <- app_assoc. simpl.
    by destruct (last _).
Qed.

(** One turn of the loop of [main]: nothing when the flag is not 1; else
    one level driven per index, from 0 to [NUM_DATA - 1], and the flag
    cleared. *)
Lemma main_loop_body_eq s :
  main_loop_body s
  = Ret tt (if flag s =? 1
            then set_flag 0
                   (indicate (verdict (tx_data s) (rx_data s) <$> seqZ 0 NUM_DATA) s)
            else s).
Proof.
  unfold main_loop_body, bind at 1, get at 1.
  destruct (flag s =? 1); [|done].
  unfold bind at 1, compare_buffers, for_range.
  by rewrite compare_loop.
Qed.

Lemma last_verdict tx rx :
  last (verdict tx rx <$> seqZ 0 NUM_DATA) = Some (verdict tx rx (NUM_DATA - 1)).
Proof. by rewrite fmap_last. Qed.

(** ** The comparison pass *)

(** C1: a turn of the main loop that finds the flag set drives one level
    per index, in index order, each overwriting the one before; so the
    indicator ends HIGH when the two buffers agree at every index below
    [NUM_DATA], and ends LOW whenever they differ at index
    [NUM_DATA - 1], whatever the earlier indices gave. *)
Theorem indicator_after_pass s :
  flag s = 1 →
  ∃ s', main_loop_body s = Ret tt s'
    ∧ trace s' = trace s ++ ((λ i, XMC_GPIO_SetOutputLevel
                                     (verdict (tx_data s) (rx_data s) i))
                             <$> seqZ 0 NUM_DATA)
    ∧ ((∀ i, 0 ≤ i < NUM_DATA → load (tx_data s) i = load (rx_data s) i) →
       led s' = Some GPIO_OUTPUT_LEVEL_HIGH)
    ∧ (load (tx_data s) (NUM_DATA - 1) ≠ load (rx_data s) (NUM_DATA - 1) →
       led s' = Some GPIO_OUTPUT_LEVEL_LOW).
Proof.
  intros Hf. rewrite main_loop_body_eq, Hf, Z.eqb_refl.
  eexists; split; [done|]. unfold set_flag, indicate; cbn [trace led].
  rewrite last_verdict, <- list_fmap_compose.
  split_and!; [done| |]; unfold verdict.
  - intros Hall. rewrite Hall by (unfold NUM_DATA; lia).
    by rewrite Z.eqb_refl.
  - intros Hne. by rewrite (proj2 (Z.eqb_neq _ _) Hne).
Qed.

Lemma indicator_after_pass_witness :
  ∃ s', main_loop_body
          (mkState 9 9 1 [0; 1; 2; 3; 4; 5; 6; 7; 8] [0; 1; 2; 3; 4; 5; 6; 7; 255]
                   [] true [] [] None []) = Ret tt s'
    ∧ led s' = Some GPIO_OUTPUT_LEVEL_LOW.
Proof.
  destruct (indicator_after_pass
              (mkState 9 9 1 [0; 1; 2; 3; 4; 5; 6; 7; 8]
                       [0; 1; 2; 3; 4; 5; 6; 7; 255] [] true [] [] None []))
    as (s' & E & _ & _ & Hlow); [reflexivity|].
  exists s'. split; [exact E|]. apply Hlow. vm_compute. discriminate.
Defined.

(** C10: a turn of the main loop that finds the flag set leaves both
    buffers and both cursors as they were (and the stray stores and the
    device queues with them); it changes the indicator level, the trace
    of calls and the flag, which it clears. *)
Theorem pass_frame s :
  flag s = 1 →
  ∃ s', main_loop_body s = Ret tt s'
    ∧ tx_data s' = tx_data s ∧ rx_data s' = rx_data s
    ∧ tx_index s' = tx_index s ∧ rx_index s' = rx_index s
    ∧ stray s' = stray s ∧ bsp_ok s' = bsp_ok s
    ∧ txfull s' = txfull s ∧ rxfifo s' = rxfifo s
    ∧ flag s' = 0.
Proof.
  intros Hf. rewrite main_loop_body_eq, Hf, Z.eqb_refl.
  eexists; split; [done|]. done.
Qed.

Lemma pass_frame_witness :
  ∃ s', main_loop_body
          (mkState 9 9 1 [0; 1; 2; 3; 4; 5; 6; 7; 8] [0; 1; 2; 3; 4; 5; 6; 7; 8]
                   [] true [] [] None []) = Ret tt s'
    ∧ tx_data s' = [0; 1; 2; 3; 4; 5; 6; 7; 8]
    ∧ rx_data s' = [0; 1; 2; 3; 4; 5; 6; 7; 8]
    ∧ tx_index s' = 9 ∧ rx_index s' = 9 ∧ flag s' = 0.
Proof.
  destruct (pass_frame
              (mkState 9 9 1 [0; 1; 2; 3; 4; 5; 6; 7; 8]
                       [0; 1; 2; 3; 4; 5; 6; 7; 8] [] true [] [] None []))
    as (s' & E & H1 & H2 & H3 & H4 & _ & _ & _ & _ & H5); [reflexivity|].
  exists s'. split_and!; assumption.
Defined.

(** ** A full cycle *)

Lemma run_app LIMIT es1 : ∀ es2 s s1,
  run LIMIT es1 s = Ret tt s1 →
  run LIMIT (es1 ++ es2) s = run LIMIT es2 s1.
Proof.
  induction es1 as [|e es1 IH]; intros es2 s s1 E.
  - simpl in E. by injection E as <-.
  - simpl in E |- *. unfold bind in E |- *.
    destruct (step LIMIT e s) as [[] s0|s0|s0]; try discriminate.
    by apply IH.
Qed.

(** A receive session that starts at cursor 0 and delivers [NUM_DATA]
    words in all, followed by one turn of the main loop: the words, cut
    to bytes, are the receive buffer, the pass has run, and the level it
    left is the verdict on the last index. *)
Lemma full_cycle LIMIT bursts s :
  rx_index s = 0 → rxfifo s = [] →
  length (rx_data s) = Z.to_nat NUM_DATA →
  length (concat bursts) = Z.to_nat NUM_DATA →
  ∃ t, run LIMIT ((RxIrq <$> bursts) ++ [MainTurn]) s = Ret tt t
    ∧ tx_data t = tx_data s
    ∧ rx_data t = uint8 <$> concat bursts
    ∧ flag t = 0
    ∧ led t = Some (verdict (tx_data s) (uint8 <$> concat bursts) (NUM_DATA - 1)).
Proof.
  intros H0 Hf Hlen Hn.
  destruct (rx_run_in_bounds LIMIT bursts s)
    as (s1 & E & I1 & I2 & I3 & I4 & I5 & I6 & I7 & I8);
    [done|lia|rewrite H0, Hn; unfold NUM_DATA; lia|].
  rewrite H0, overwrite_all in I7 by (by rewrite length_fmap, Hn, Hlen).
  assert (Hflag : flag s1 = 1).
  { apply I8.
    - intros ->. simpl in Hn. unfold NUM_DATA in Hn. lia.
    - rewrite I1, H0, Hn. unfold NUM_DATA. lia. }
  rewrite (run_app _ _ _ _ _ E). simpl run. unfold bind, step.
  rewrite main_loop_body_eq, Hflag, Z.eqb_refl. unfold ret.
  eexists; split; [done|].
  unfold set_flag, indicate; cbn [tx_data rx_data flag led].
  rewrite last_verdict, I5, I7 by done. done.
Qed.

(** C8: two cycles (a receive session from cursor 0, then the turn of the
    main loop that sees the flag) over the same transmit buffer and the
    same injected words end with the same indicator level, however the
    words were split into bursts and whatever the receive buffer, the
    indicator and the rest of the state held before: the level is a
    function of the two buffers only. *)
Theorem cycle_repeatable LIMIT s1 s2 bursts1 bursts2 data :
  rx_index s1 = 0 → rx_index s2 = 0 →
  rxfifo s1 = [] → rxfifo s2 = [] →
  length (rx_data s1) = Z.to_nat NUM_DATA →
  length (rx_data s2) = Z.to_nat NUM_DATA →
  tx_data s1 = tx_data s2 →
  concat bursts1 = data → concat bursts2 = data →
  length data = Z.to_nat NUM_DATA →
  ∃ t1 t2,
    run LIMIT ((RxIrq <$> bursts1) ++ [MainTurn]) s1 = Ret tt t1
    ∧ run LIMIT ((RxIrq <$> bursts2) ++ [MainTurn]) s2 = Ret tt t2
    ∧ rx_data t1 = uint8 <$> data ∧ rx_data t2 = uint8 <$> data
    ∧ flag t1 = 0 ∧ flag t2 = 0
    ∧ led t1 = Some (verdict (tx_data s1) (uint8 <$> data) (NUM_DATA - 1))
    ∧ led t2 = led t1.
Proof.
  intros A1 A2 B1 B2 C1 C2 Htx D1 D2 Hn.
  destruct (full_cycle LIMIT bursts1 s1) as (t1 & E1 & _ & R1 & F1 & L1);
    [done|done|done|by rewrite D1|].
  destruct (full_cycle LIMIT bursts2 s2) as (t2 & E2 & _ & R2 & F2 & L2);
    [done|done|done|by rewrite D2|].
  exists t1, t2. rewrite D1 in R1, L1. rewrite D2 in R2, L2.
  split_and!; try done. by rewrite L1, L2, Htx.
Qed.

Lemma cycle_repeatable_witness :
  let t := final (run 7 ((RxIrq <$> [[0; 1; 2; 3; 4; 5; 6; 7]; [8]]) ++ [MainTurn])
                      first_cycle_start) in
  ∃ t1 t2,
    run 7 ((RxIrq <$> [[0; 1; 2; 3; 4; 5; 6; 7]; [8]]) ++ [MainTurn])
        first_cycle_start = Ret tt t1
    ∧ run 7 ((RxIrq <$> [[0; 1; 2]; [3; 4; 5; 6; 7; 8]]) ++ [MainTurn])
          (rearmed t) = Ret tt t2
    ∧ led t1 = Some GPIO_OUTPUT_LEVEL_HIGH
    ∧ led t2 = led t1.
Proof.
  intros t.
  destruct (cycle_repeatable 7 first_cycle_start (rearmed t)
              [[0; 1; 2; 3; 4; 5; 6; 7]; [8]] [[0; 1; 2]; [3; 4; 5; 6; 7; 8]]
              [0; 1; 2; 3; 4; 5; 6; 7; 8])
    as (t1 & t2 & E1 & E2 & _ & _ & _ & _ & L1 & L2); try reflexivity.
  exists t1, t2. split_and!; [exact E1|exact E2|exact L1|exact L2].
Defined.

(** ** The transmit side and the set-up of [main] *)

Lemma while_full_frame fuel : ∀ s,
  only_polled s (final (while fuel hal_TXFIFO_IsFull (ret tt) s)).
Proof.
  induction fuel as [|fuel IH]; intros s; [done|].
  simpl. unfold bind at 1, hal_TXFIFO_IsFull at 1.
  destruct (txfull s) as [|[] rest]; [done| |done].
  unfold bind at 1, ret at 1.
  apply (IH (log (XMC_USIC_CH_TXFIFO_IsFull true) (set_txfull rest s))).
Qed.

Lemma wait_frame s : only_polled s (final (wait_txfifo_not_full s)).
Proof. apply while_full_frame. Qed.

Lemma tx_handler_push k rest s :
  tx_index s < NUM_DATA →
  txfull s = replicate k true ++ false :: rest →
  USIC0_0_IRQHandler s
  = Ret tt (set_tx_index (uint32 (tx_index s + 1))
              (logs (full_polls k
                     ++ [XMC_UART_CH_Transmit (load (tx_data s) (tx_index s))])
                    (set_txfull rest s))).
Proof.
  intros Hlt Hs. unfold USIC0_0_IRQHandler, bind at 1, get at 1.
  rewrite (proj2 (Z.ltb_lt _ _) Hlt).
  unfold bind at 1. rewrite (wait_returns k rest s Hs).
  unfold bind, get, call, modify, set_tx_index, logs, log, set_txfull; simpl.
  by rewrite <- app_assoc.
Qed.

(** With the FIFO full for as long as it is watched, the handler is
    still waiting: nothing pushed, the cursor where it was. *)
Lemma tx_handler_waits k s :
  tx_index s < NUM_DATA →
  txfull s = replicate k true →
  ∃ s', USIC0_0_IRQHandler s = Spins s' ∧ tx_index s' = tx_index s.
Proof.
  intros Hlt Hs. unfold USIC0_0_IRQHandler, bind at 1, get at 1.
  rewrite (proj2 (Z.ltb_lt _ _) Hlt).
  unfold bind at 1, wait_txfifo_not_full.
  destruct (while_full_spins k (S (length (txfull s))) s Hs) as (s' & -> & E).
  by exists s'.
Qed.

Lemma tx_handler_done s :
  NUM_DATA ≤ tx_index s →
  USIC0_0_IRQHandler s
  = Ret tt (logs [XMC_USIC_CH_TXFIFO_DisableEvent; NVIC_DisableIRQ USIC0_0_IRQn] s).
Proof.
  intros Hge. unfold USIC0_0_IRQHandler, bind at 1, get at 1.
  rewrite (proj2 (Z.ltb_ge _ _) Hge).
  unfold bind, call, modify, logs, log; simpl.
  by rewrite <- app_assoc.
Qed.

(** Whatever the transmit handler does, it leaves the receive side, the
    flag, both buffers and the indicator alone. *)
Lemma tx_handler_frame s :
  let s' := final (USIC0_0_IRQHandler s) in
  rx_index s' = rx_index s ∧ flag s' = flag s ∧ tx_data s' = tx_data s ∧
  rx_data s' = rx_data s ∧ stray s' = stray s ∧ rxfifo s' = rxfifo s ∧
  led s' = led s.
Proof.
  cbv zeta. unfold USIC0_0_IRQHandler, bind, get, call, modify.
  destruct (tx_index s <? NUM_DATA); [|done].
  pose proof (wait_frame s) as W.
  destruct (wait_txfifo_not_full s) as [[] w|w|w]; simpl in W;
    destruct W as (W1 & W2 & W3 & W4 & W5 & W6 & W7 & W8 & W9);
    simpl; split_and!; done.
Qed.

(** Once [tx_index] is [NUM_DATA], no interrupt and no turn of the main
    loop moves it, and none of them gets stuck. *)
Lemma tx_done_stable LIMIT es : ∀ s,
  tx_index s = NUM_DATA →
  ∃ s', run LIMIT es s = Ret tt s' ∧ tx_index s' = NUM_DATA.
Proof.
  induction es as [|e es IH]; intros s Hs; [by exists s|].
  assert (∃ s1, step LIMIT e s = Ret tt s1 ∧ tx_index s1 = NUM_DATA)
    as (s1 & E1 & H1).
  { destruct e as [|ws|].
    - eexists; split; [apply tx_handler_done; lia|done].
    - destruct (rx_irq_received LIMIT ws s) as (s1 & E & R1 & _).
      exists s1. split; [done|congruence].
    - eexists; split; [apply main_loop_body_eq|].
      by destruct (flag s =? 1). }
  destruct (IH s1 H1) as (s' & E' & H').
  exists s'. by rewrite (run_cons _ _ _ _ _ E1).
Qed.

(** C5: a run of the transmit handler that finds [tx_index < NUM_DATA]
    polls the FIFO until it is not full, then pushes
    [tx_data[tx_index]], and moves the cursor up by exactly one; a run
    that finds [tx_index == NUM_DATA] leaves the cursor alone and
    disables the FIFO event and its own interrupt line; and from then on
    the cursor stays at [NUM_DATA] whatever runs. *)
Theorem tx_handler_spec s :
  (∀ k rest,
     0 ≤ tx_index s < NUM_DATA →
     txfull s = replicate k true ++ false :: rest →
     ∃ s', USIC0_0_IRQHandler s = Ret tt s'
       ∧ tx_index s' = tx_index s + 1
       ∧ trace s' = trace s ++ full_polls k
                    ++ [XMC_UART_CH_Transmit (load (tx_data s) (tx_index s))]
       ∧ tx_data s' = tx_data s)
  ∧ (tx_index s = NUM_DATA →
     (∃ s', USIC0_0_IRQHandler s = Ret tt s'
        ∧ tx_index s' = NUM_DATA
        ∧ trace s' = trace s ++ [XMC_USIC_CH_TXFIFO_DisableEvent;
                                 NVIC_DisableIRQ USIC0_0_IRQn])
     ∧ (∀ LIMIT es, ∃ s', run LIMIT es s = Ret tt s' ∧ tx_index s' = NUM_DATA)).
Proof.
  split.
  - intros k rest [H0 Hlt] Hs.
    rewrite (tx_handler_push k rest s Hlt Hs).
    eexists; split; [done|]. simpl.
    split_and!; try done.
    apply uint32_small. unfold NUM_DATA in Hlt. lia.
  - intros HN. split.
    + rewrite tx_handler_done by lia. by eexists.
    + intros LIMIT es. by apply tx_done_stable.
Qed.

Lemma tx_handler_spec_witness :
  (∃ s', USIC0_0_IRQHandler
           (mkState 1 0 0 [0; 1; 2; 3; 4; 5; 6; 7; 8] [0; 0; 0; 0; 0; 0; 0; 0; 0]
                    [] true [true; true; false] [] None []) = Ret tt s'
     ∧ tx_index s' = 2
     ∧ trace s' = [XMC_USIC_CH_TXFIFO_IsFull true; XMC_USIC_CH_TXFIFO_IsFull true;
                   XMC_USIC_CH_TXFIFO_IsFull false; XMC_UART_CH_Transmit 1])
  ∧ (∃ s', USIC0_0_IRQHandler
             (mkState 9 0 0 [0; 1; 2; 3; 4; 5; 6; 7; 8] [0; 0; 0; 0; 0; 0; 0; 0; 0]
                      [] true [] [] None []) = Ret tt s'
       ∧ tx_index s' = NUM_DATA).
Proof.
  split.
  - destruct (proj1 (tx_handler_spec
                       (mkState 1 0 0 [0; 1; 2; 3; 4; 5; 6; 7; 8]
                                [0; 0; 0; 0; 0; 0; 0; 0; 0]
                                [] true [true; true; false] [] None []))
                2%nat [] ltac:(unfold NUM_DATA; simpl; lia) eq_refl)
      as (s' & E & H1 & H2 & _).
    exists s'. split_and!; [exact E|exact H1|exact H2].
  - destruct (proj1 (proj2 (tx_handler_spec
                       (mkState 9 0 0 [0; 1; 2; 3; 4; 5; 6; 7; 8]
                                [0; 0; 0; 0; 0; 0; 0; 0; 0]
                                [] true [] [] None [])) eq_refl))
      as (s' & E & H1 & _).
    exists s'. split; [exact E|exact H1].
Defined.

(** ** The set-up of [main] *)

(** Up to its busy wait, [main] either stops on a failed start or gets
    to the wait with the transmit buffer filled and the interrupts armed. *)
Lemma main_setup_eq LIMIT s :
  ∃ t, main_setup LIMIT s
       = (if bsp_ok s
          then match wait_txfifo_not_full (armed t s) with
               | Ret _ w => Ret tt (seeded LIMIT w)
               | Spins w => Spins w
               | Halts w => Halts w
               end
          else Halts (halted s))
    ∧ (length (tx_data s) = Z.to_nat NUM_DATA → t = seqZ 0 NUM_DATA).
Proof.
  destruct (fill_loop (Z.to_nat NUM_DATA) 0 (log (cybsp_init true) s))
    as (t & E & Ht).
  exists t. split.
  - unfold main_setup.
    rewrite (bind_Ret _ _ s (bsp_ok s) (log (cybsp_init (bsp_ok s)) s))
      by reflexivity.
    destruct (bsp_ok s); [|done].
    rewrite (bind_Ret _ _ _ tt (log (cybsp_init true) s)) by reflexivity.
    unfold for_range. change (Z.to_nat (NUM_DATA - 0)) with (Z.to_nat NUM_DATA).
    rewrite (bind_Ret _ _ _ _ _ E).
    do 5 (erewrite bind_Ret by reflexivity).
    replace (log XMC_UART_CH_Start _) with (armed t s)
      by (unfold armed, arm_calls, logs, log; simpl; by rewrite <- !app_assoc).
    unfold bind at 1.
    destruct (wait_txfifo_not_full (armed t s)) as [[] w|w|w]; try done.
    unfold bind, get, modify, call, modify, ret, seeded, rx_adjust. simpl.
    by destruct (uint32 (NUM_DATA - rx_index w) <? LIMIT).
  - intros Hlen. rewrite Ht by (simpl; lia).
    simpl tx_data. rewrite overwrite_all.
    + reflexivity.
    + by rewrite Hlen.
Qed.

Lemma rx_adjust_fields LIMIT d :
  let s' := rx_adjust LIMIT d in
  tx_index s' = tx_index d ∧ rx_index s' = rx_index d ∧ flag s' = flag d ∧
  tx_data s' = tx_data d ∧ rx_data s' = rx_data d ∧ led s' = led d ∧
  trace s' = trace d
             ++ (if uint32 (NUM_DATA - rx_index d) <? LIMIT
                 then [XMC_USIC_CH_RXFIFO_SetSizeTriggerLimit
                         XMC_USIC_CH_FIFO_SIZE_8WORDS
                         (uint32 (uint32 (NUM_DATA - rx_index d) - 1))]
                 else []).
Proof.
  unfold rx_adjust.
  destruct (uint32 (NUM_DATA - rx_index d) <? LIMIT); simpl;
    by rewrite ?app_nil_r.
Qed.

(** When the start succeeds and the device stops answering "full" after
    [k] polls, the set-up returns. *)
Lemma main_setup_returns LIMIT k rest s :
  bsp_ok s = true →
  txfull s = replicate k true ++ false :: rest →
  ∃ t, main_setup LIMIT s
       = Ret tt (seeded LIMIT (logs (full_polls k) (set_txfull rest (armed t s))))
    ∧ (length (tx_data s) = Z.to_nat NUM_DATA → t = seqZ 0 NUM_DATA).
Proof.
  intros Hok Hs. destruct (main_setup_eq LIMIT s) as (t & E & Ht).
  exists t. split; [|done].
  rewrite E, Hok. by rewrite (wait_returns k rest (armed t s)).
Qed.

Lemma main_setup_flag LIMIT s : flag (final (main_setup LIMIT s)) = flag s.
Proof.
  destruct (main_setup_eq LIMIT s) as (t & -> & _).
  destruct (bsp_ok s); [|done].
  pose proof (wait_frame (armed t s)) as W.
  destruct (wait_txfifo_not_full (armed t s)) as [[] w|w|w]; simpl in W;
    destruct W as (_ & _ & W & _); [|done..].
  simpl final. unfold seeded.
  destruct (rx_adjust_fields LIMIT
              (log (XMC_UART_CH_Transmit (load (tx_data w) (tx_index w)))
                   (set_tx_index (uint32 (tx_index w + 1)) w)))
    as (_ & _ & -> & _).
  done.
Qed.

Lemma load_seqZ n i : 0 ≤ i < n → load (seqZ 0 n) i = i.
Proof.
  intros Hi. unfold load. rewrite lookup_seqZ_lt by lia. simpl. lia.
Qed.

(** C7: on a successful start, [main] fills [tx_data] with 0, 1, ...,
    [NUM_DATA - 1], arms the interrupts, starts the UART, polls the FIFO
    until it is not full, pushes [tx_data[0]] itself, and enters its loop
    with [tx_index == 1]. *)
Theorem main_setup_seeds LIMIT k rest s :
  bsp_ok s = true → tx_index s = 0 →
  length (tx_data s) = Z.to_nat NUM_DATA →
  txfull s = replicate k true ++ false :: rest →
  ∃ s', main_setup LIMIT s = Ret tt s'
    ∧ tx_data s' = seqZ 0 NUM_DATA
    ∧ (∀ i, 0 ≤ i < NUM_DATA → load (tx_data s') i = i)
    ∧ tx_index s' = 1
    ∧ trace s' = trace s ++ cybsp_init true :: arm_calls ++ full_polls k
                 ++ XMC_UART_CH_Transmit 0
                 :: (if uint32 (NUM_DATA - rx_index s) <? LIMIT
                     then [XMC_USIC_CH_RXFIFO_SetSizeTriggerLimit
                             XMC_USIC_CH_FIFO_SIZE_8WORDS
                             (uint32 (uint32 (NUM_DATA - rx_index s) - 1))]
                     else []).
Proof.
  intros Hok H0 Hlen Hs.
  destruct (main_setup_returns LIMIT k rest s Hok Hs) as (t & E & Ht).
  specialize (Ht Hlen). subst t.
  eexists; split; [exact E|]. unfold seeded.
  match goal with |- context [rx_adjust LIMIT ?d] =>
    destruct (rx_adjust_fields LIMIT d) as (F1 & F2 & F3 & F4 & F5 & F6 & F7)
  end.
  rewrite F1, F4, F7. simpl. rewrite H0.
  split_and!; try done.
  - intros i Hi. by apply load_seqZ.
  - rewrite <- !app_assoc. simpl. reflexivity.
Qed.

Lemma main_setup_seeds_witness :
  ∃ s', main_setup 7 (reset_state true [true; false]) = Ret tt s'
    ∧ tx_data s' = [0; 1; 2; 3; 4; 5; 6; 7; 8]
    ∧ tx_index s' = 1.
Proof.
  destruct (main_setup_seeds 7 1%nat [] (reset_state true [true; false]))
    as (s' & E & H1 & _ & H2 & _); try reflexivity.
  exists s'. split_and!; [exact E|exact H1|exact H2].
Defined.

(** C9: when [cybsp_init] does not report success, [main] reaches
    [CY_HALT] right after it: the two calls are the whole trace, the
    transmit buffer is not filled, no interrupt is enabled, the UART is
    not started, and no turn of the loop runs. *)
Theorem failed_start_halts LIMIT n s :
  bsp_ok s = false →
  ∃ s', main LIMIT n s = Halts s'
    ∧ trace s' = trace s ++ [cybsp_init false; CY_HALT]
    ∧ tx_data s' = tx_data s ∧ rx_data s' = rx_data s
    ∧ tx_index s' = tx_index s ∧ rx_index s' = rx_index s
    ∧ flag s' = flag s ∧ led s' = led s
    ∧ txfull s' = txfull s ∧ rxfifo s' = rxfifo s.
Proof.
  intros Hok. exists (halted s). split.
  - unfold main, bind. destruct (main_setup_eq LIMIT s) as (t & -> & _).
    by rewrite Hok.
  - unfold halted. simpl. by rewrite <- app_assoc.
Qed.

Lemma failed_start_halts_witness :
  ∃ s', main 7 3 (reset_state false [false]) = Halts s'
    ∧ trace s' = [cybsp_init false; CY_HALT]
    ∧ tx_data s' = [0; 0; 0; 0; 0; 0; 0; 0; 0].
Proof.
  destruct (failed_start_halts 7 3 (reset_state false [false]))
    as (s' & E & H1 & H2 & _); [reflexivity|].
  exists s'. split_and!; [exact E|exact H1|exact H2].
Defined.

(** ** The adaptive trigger limit *)

Lemma remaining_exact i :
  0 ≤ i < NUM_DATA →
  uint32 (NUM_DATA - i) = NUM_DATA - i
  ∧ uint32 (uint32 (NUM_DATA - i) - 1) = NUM_DATA - i - 1.
Proof.
  intros Hi. unfold NUM_DATA in *.
  rewrite (uint32_small (9 - i)) by lia.
  split; [done|]. apply uint32_small. lia.
Qed.

(** C6: when, after the drain loop, the bytes still expected,
    [NUM_DATA - rx_index] as the code computes it in [uint32_t], number
    fewer than the limit, the receive handler reprograms the trigger
    limit (FIFO size 8 words) to that number minus one, and otherwise
    leaves it alone; with bytes still expected ([rx_index < NUM_DATA])
    the two values are the integers [NUM_DATA - rx_index] and
    [NUM_DATA - rx_index - 1].  [main] makes the same test and the same
    call once, at the end of its set-up: with the cursor still at 0 the
    call is made exactly when [NUM_DATA] is below the limit, and sets
    [NUM_DATA - 1]. *)
Theorem rx_limit_adjusted LIMIT s :
  let d := final (drain_rxfifo s) in
  (uint32 (NUM_DATA - rx_index d) < LIMIT →
   USIC0_1_IRQHandler LIMIT s
   = Ret tt (log (XMC_USIC_CH_RXFIFO_SetSizeTriggerLimit
                    XMC_USIC_CH_FIFO_SIZE_8WORDS
                    (uint32 (uint32 (NUM_DATA - rx_index d) - 1)))
                 (rx_signal d)))
  ∧ (LIMIT ≤ uint32 (NUM_DATA - rx_index d) →
     USIC0_1_IRQHandler LIMIT s = Ret tt (rx_signal d))
  ∧ (0 ≤ rx_index d < NUM_DATA →
     uint32 (NUM_DATA - rx_index d) = NUM_DATA - rx_index d
     ∧ uint32 (uint32 (NUM_DATA - rx_index d) - 1) = NUM_DATA - rx_index d - 1)
  ∧ (∀ k rest,
       bsp_ok s = true → rx_index s = 0 →
       txfull s = replicate k true ++ false :: rest →
       ∃ s', main_setup LIMIT s = Ret tt s'
         ∧ trace s' = trace s ++ cybsp_init true :: arm_calls ++ full_polls k
                      ++ XMC_UART_CH_Transmit (load (tx_data s') (tx_index s))
                      :: (if NUM_DATA <? LIMIT
                          then [XMC_USIC_CH_RXFIFO_SetSizeTriggerLimit
                                  XMC_USIC_CH_FIFO_SIZE_8WORDS (NUM_DATA - 1)]
                          else [])).
Proof.
  intros d. split_and!.
  - intros Hlt. rewrite rx_handler_eq. fold d. unfold rx_adjust.
    replace (rx_index (rx_signal d)) with (rx_index d)
      by (unfold rx_signal; by destruct (rx_index d =? NUM_DATA)).
    by rewrite (proj2 (Z.ltb_lt _ _) Hlt).
  - intros Hge. rewrite rx_handler_eq. fold d. unfold rx_adjust.
    replace (rx_index (rx_signal d)) with (rx_index d)
      by (unfold rx_signal; by destruct (rx_index d =? NUM_DATA)).
    by rewrite (proj2 (Z.ltb_ge _ _) Hge).
  - apply remaining_exact.
  - intros k rest Hok H0 Hs.
    destruct (main_setup_returns LIMIT k rest s Hok Hs) as (t & E & _).
    eexists; split; [exact E|]. unfold seeded.
    match goal with |- context [rx_adjust LIMIT ?w] =>
      destruct (rx_adjust_fields LIMIT w) as (F1 & F2 & F3 & F4 & F5 & F6 & F7)
    end.
    rewrite F4, F7. simpl. rewrite H0.
    rewrite <- !app_assoc. simpl. reflexivity.
Qed.

Lemma rx_limit_adjusted_witness :
  let s := set_rxfifo [0; 1; 2; 3; 4; 5; 6; 7] first_cycle_start in
  let s0 := reset_state true [false] in
  USIC0_1_IRQHandler 7 s
  = Ret tt (log (XMC_USIC_CH_RXFIFO_SetSizeTriggerLimit
                   XMC_USIC_CH_FIFO_SIZE_8WORDS 0)
                (final (drain_rxfifo s)))
  ∧ ∃ s', main_setup 12 s0 = Ret tt s'
      ∧ trace s' = trace s0 ++ cybsp_init true :: arm_calls ++ full_polls 0
                   ++ XMC_UART_CH_Transmit (load (tx_data s') (tx_index s0))
                   :: [XMC_USIC_CH_RXFIFO_SetSizeTriggerLimit
                         XMC_USIC_CH_FIFO_SIZE_8WORDS 8].
Proof.
  intros s s0. split.
  - assert (H : uint32 (NUM_DATA - rx_index (final (drain_rxfifo s))) < 7)
      by (vm_compute; reflexivity).
    apply (proj1 (rx_limit_adjusted 7 s)) in H.
    etrans; [exact H|]. vm_compute. reflexivity.
  - exact (proj2 (proj2 (proj2 (rx_limit_adjusted 12 s0)))
             0%nat [] eq_refl eq_refl eq_refl).
Defined.

(** ** The cursor and the flag *)

(** C4: one run of the receive handler takes every word the FIFO holds
    and moves [rx_index] up by exactly their number (short of the
    [uint32_t] wrap); the flag, when it was not up, is up afterwards if
    and only if [rx_index == NUM_DATA] after the drain.  Nothing else
    raises it: the transmit handler and the set-up of [main] leave it as
    it is, and a turn of the main loop either leaves it or, when it was
    1, clears it after the comparison pass. *)
Theorem rx_cursor_and_flag LIMIT s :
  (0 ≤ rx_index s →
   rx_index s + Z.of_nat (length (rxfifo s)) < 2 ^ 32 →
   ∃ s', USIC0_1_IRQHandler LIMIT s = Ret tt s'
     ∧ rxfifo s' = []
     ∧ rx_index s' = rx_index s + Z.of_nat (length (rxfifo s))
     ∧ flag s' = (if rx_index s' =? NUM_DATA then 1 else flag s)
     ∧ (flag s ≠ 1 → (flag s' = 1 ↔ rx_index s' = NUM_DATA)))
  ∧ flag (final (USIC0_0_IRQHandler s)) = flag s
  ∧ flag (final (main_setup LIMIT s)) = flag s
  ∧ (∃ t, main_loop_body s = Ret tt t
       ∧ flag t = (if flag s =? 1 then 0 else flag s)).
Proof.
  split_and!.
  - intros H0 Hlt.
    destruct (rx_handler_received LIMIT s)
      as (s' & E & R1 & R2 & R3 & R4 & R5 & R6 & R7 & R8 & _).
    exists s'. split; [done|].
    rewrite R8, uint32_small by lia.
    rewrite R8, uint32_small in R7 by lia.
    split_and!; try done.
    intros Hf. rewrite R7.
    destruct (Z.eqb_spec (rx_index s + Z.of_nat (length (rxfifo s))) NUM_DATA);
      split; try done.
  - by destruct (tx_handler_frame s) as (_ & -> & _).
  - apply main_setup_flag.
  - rewrite main_loop_body_eq. eexists; split; [done|].
    by destruct (flag s =? 1).
Qed.

Lemma rx_cursor_and_flag_witness :
  ∃ s', USIC0_1_IRQHandler 7 ninth_word_pending = Ret tt s'
    ∧ rx_index s' = rx_index ninth_word_pending + 1
    ∧ flag s' = 1.
Proof.
  destruct (proj1 (rx_cursor_and_flag 7 ninth_word_pending)
                  ltac:(vm_compute; discriminate)
                  ltac:(vm_compute; reflexivity))
    as (s' & E & _ & H1 & H2 & _).
  exists s'. split_and!; [exact E|exact H1|].
  rewrite H2, H1. reflexivity.
Defined.

(** * Further properties of the handlers and of [main] *)

(** ** What the receive handler calls *)

Lemma taken_drain_calls ws : taken (drain_calls ws) = ws.
Proof.
  unfold drain_calls, taken. rewrite omap_app. simpl. rewrite app_nil_r.
  induction ws as [|w ws IH]; [done|]. cbn. f_equal. exact IH.
Qed.

Lemma rx_signal_fields d :
  tx_index (rx_signal d) = tx_index d ∧ rx_index (rx_signal d) = rx_index d ∧
  tx_data (rx_signal d) = tx_data d ∧ rx_data (rx_signal d) = rx_data d ∧
  stray (rx_signal d) = stray d ∧ led (rx_signal d) = led d ∧
  rxfifo (rx_signal d) = rxfifo d ∧ txfull (rx_signal d) = txfull d ∧
  trace (rx_signal d) = trace d.
Proof. unfold rx_signal. by destruct (rx_index d =? NUM_DATA). Qed.

Lemma rx_handler_trace LIMIT s :
  ∃ s', USIC0_1_IRQHandler LIMIT s = Ret tt s'
    ∧ received (rxfifo s) s s'
    ∧ stray s' = stray (final (drain_rxfifo s))
    ∧ rx_data s' = rx_data (final (drain_rxfifo s))
    ∧ rx_index s' = rx_index (final (drain_rxfifo s))
    ∧ trace s' = trace s ++ drain_calls (rxfifo s)
                 ++ (if uint32 (NUM_DATA - rx_index s') <? LIMIT
                     then [XMC_USIC_CH_RXFIFO_SetSizeTriggerLimit
                             XMC_USIC_CH_FIFO_SIZE_8WORDS
                             (uint32 (uint32 (NUM_DATA - rx_index s') - 1))]
                     else []).
Proof.
  destruct (rx_handler_received LIMIT s) as (s' & E & R).
  exists s'. split; [done|]. split; [done|].
  rewrite rx_handler_eq in E. injection E as <-.
  destruct (drain_final s) as [_ Hd]. revert Hd.
  generalize (final (drain_rxfifo s)); intros d Hd.
  destruct Hd as (_ & _ & _ & _ & _ & _ & _ & H8 & _).
  destruct (rx_adjust_fields LIMIT (rx_signal d)) as (_ & F2 & _ & _ & F5 & _ & F7).
  destruct (rx_signal_fields d) as (_ & G2 & _ & G4 & G5 & _ & _ & _ & G9).
  rewrite F7, F2, F5, G2, G4, G9, H8, <- app_assoc.
  split_and!; try done.
  unfold rx_adjust. rewrite G2.
  by destruct (uint32 (NUM_DATA - rx_index d) <? LIMIT).
Qed.

(** X1: one run of the receive handler asks for empty before every
    read, reads exactly the words the FIFO holds, oldest first, stops at
    the first "empty", and makes at most one more call, the
    reprogramming of the trigger limit; it never reads an empty FIFO. *)
Theorem rx_handler_calls LIMIT s :
  ∃ s', USIC0_1_IRQHandler LIMIT s = Ret tt s'
    ∧ trace s' = trace s ++ drain_calls (rxfifo s)
                 ++ (if uint32 (NUM_DATA - rx_index s') <? LIMIT
                     then [XMC_USIC_CH_RXFIFO_SetSizeTriggerLimit
                             XMC_USIC_CH_FIFO_SIZE_8WORDS
                             (uint32 (uint32 (NUM_DATA - rx_index s') - 1))]
                     else [])
    ∧ taken (trace s') = taken (trace s) ++ rxfifo s
    ∧ rxfifo s' = [].
Proof.
  destruct (rx_handler_trace LIMIT s) as (s' & E & R & _ & _ & _ & T).
  exists s'. split; [done|]. split; [done|].
  destruct R as (_ & _ & _ & _ & _ & R6 & _).
  split; [|done].
  rewrite T. unfold taken. rewrite !omap_app. fold (taken (drain_calls (rxfifo s))).
  rewrite taken_drain_calls.
  destruct (uint32 (NUM_DATA - rx_index s') <? LIMIT); simpl;
    by rewrite app_nil_r.
Qed.

(** ** What a schedule preserves *)

(** A property kept by every handler run and loop turn, however it
    stops, holds wherever a schedule stops. *)
Lemma run_final_inv LIMIT (P : state → Prop) :
  (∀ e s, P s → P (final (step LIMIT e s))) →
  ∀ es s, P s → P (final (run LIMIT es s)).
Proof.
  intros Hstep es. induction es as [|e es IH]; intros s Hs; [done|].
  simpl. unfold bind. specialize (Hstep e s Hs).
  destruct (step LIMIT e s) as [[] s1|s1|s1]; simpl in Hstep; [|done..].
  by apply IH.
Qed.

(** The busy wait returns or is still waiting; either way it has only
    polled. *)
Lemma while_full_outcome fuel : ∀ s,
  ∃ w bs, (while fuel hal_TXFIFO_IsFull (ret tt) s = Ret tt w
           ∨ while fuel hal_TXFIFO_IsFull (ret tt) s = Spins w)
    ∧ only_polled s w
    ∧ trace w = trace s ++ (XMC_USIC_CH_TXFIFO_IsFull <$> bs).
Proof.
  induction fuel as [|fuel IH]; intros s.
  - exists s, []. simpl. rewrite app_nil_r. split_and!; try done. by right.
  - simpl. unfold bind at 1 3, hal_TXFIFO_IsFull at 1 3.
    destruct (txfull s) as [|[] rest].
    + exists s, []. simpl. rewrite app_nil_r. split_and!; try done. by right.
    + unfold bind at 1 2, ret at 1 3.
      destruct (IH (log (XMC_USIC_CH_TXFIFO_IsFull true) (set_txfull rest s)))
        as (w & bs & Hw & Hp & Ht).
      exists w, (true :: bs). split; [done|]. split; [done|].
      rewrite Ht. simpl. by rewrite <- app_assoc.
    + eexists _, [false]. split; [by left|]. done.
Qed.

Lemma wait_outcome s :
  ∃ w bs, (wait_txfifo_not_full s = Ret tt w ∨ wait_txfifo_not_full s = Spins w)
    ∧ only_polled s w
    ∧ trace w = trace s ++ (XMC_USIC_CH_TXFIFO_IsFull <$> bs).
Proof. apply while_full_outcome. Qed.

Lemma tx_handler_eq s :
  USIC0_0_IRQHandler s
  = if tx_index s <? NUM_DATA
    then match wait_txfifo_not_full s with
         | Ret _ w =>
             Ret tt (set_tx_index (uint32 (tx_index w + 1))
                       (log (XMC_UART_CH_Transmit (load (tx_data w) (tx_index w))) w))
         | Spins w => Spins w
         | Halts w => Halts w
         end
    else Ret tt (logs [XMC_USIC_CH_TXFIFO_DisableEvent;
                       NVIC_DisableIRQ USIC0_0_IRQn] s).
Proof.
  unfold USIC0_0_IRQHandler, bind, get, call, modify.
  destruct (tx_index s <? NUM_DATA); [done|].
  unfold logs, log. simpl. by rewrite <- app_assoc.
Qed.

(** How the transmit handler can end. *)
Lemma tx_handler_cases s :
  (tx_index s < NUM_DATA ∧
   ∃ w bs, only_polled s w
     ∧ trace w = trace s ++ (XMC_USIC_CH_TXFIFO_IsFull <$> bs)
     ∧ (USIC0_0_IRQHandler s = Spins w
        ∨ USIC0_0_IRQHandler s
          = Ret tt (set_tx_index (uint32 (tx_index s + 1))
                      (log (XMC_UART_CH_Transmit (load (tx_data s) (tx_index s))) w))))
  ∨ (NUM_DATA ≤ tx_index s ∧
     USIC0_0_IRQHandler s
     = Ret tt (logs [XMC_USIC_CH_TXFIFO_DisableEvent; NVIC_DisableIRQ USIC0_0_IRQn] s)).
Proof.
  rewrite tx_handler_eq.
  destruct (Z.ltb_spec (tx_index s) NUM_DATA) as [Hlt|Hge]; [left|by right].
  split; [done|].
  destruct (wait_outcome s) as (w & bs & Hw & Hp & Ht).
  exists w, bs. split; [done|]. split; [done|].
  destruct Hp as (P1 & _ & _ & P4 & _).
  destruct Hw as [-> | ->]; [right|by left].
  by rewrite P1, P4.
Qed.

(** ** The trace of each kind of step, read for pushes, reads and levels *)

Lemma pushed_app tr1 tr2 : pushed (tr1 ++ tr2) = pushed tr1 ++ pushed tr2.
Proof. apply omap_app. Qed.

Lemma taken_app tr1 tr2 : taken (tr1 ++ tr2) = taken tr1 ++ taken tr2.
Proof. apply omap_app. Qed.

Lemma levels_app tr1 tr2 : levels (tr1 ++ tr2) = levels tr1 ++ levels tr2.
Proof. apply omap_app. Qed.

Lemma polls_read bs :
  pushed (XMC_USIC_CH_TXFIFO_IsFull <$> bs) = []
  ∧ taken (XMC_USIC_CH_TXFIFO_IsFull <$> bs) = []
  ∧ levels (XMC_USIC_CH_TXFIFO_IsFull <$> bs) = [].
Proof. induction bs as [|b bs IH]; [done|]. cbn. exact IH. Qed.

Lemma drain_calls_read ws :
  pushed (drain_calls ws) = [] ∧ levels (drain_calls ws) = [].
Proof.
  unfold drain_calls, pushed, levels. rewrite !omap_app. simpl.
  rewrite !app_nil_r.
  induction ws as [|w ws IH]; [done|]. cbn. exact IH.
Qed.

Lemma set_levels_read ls :
  pushed (XMC_GPIO_SetOutputLevel <$> ls) = []
  ∧ taken (XMC_GPIO_SetOutputLevel <$> ls) = []
  ∧ levels (XMC_GPIO_SetOutputLevel <$> ls) = ls.
Proof.
  induction ls as [|l ls (IH1 & IH2 & IH3)]; [done|]. cbn.
  split_and!; [exact IH1|exact IH2|]. f_equal. exact IH3.
Qed.

(** What a run of the transmit handler changes, however it stops: the
    answers left and the trace, and, when it pushes, the cursor. *)
Lemma tx_step_effect s :
  let s' := final (USIC0_0_IRQHandler s) in
  rx_index s' = rx_index s ∧ flag s' = flag s ∧ tx_data s' = tx_data s ∧
  rx_data s' = rx_data s ∧ stray s' = stray s ∧ rxfifo s' = rxfifo s ∧
  led s' = led s ∧
  taken (trace s') = taken (trace s) ∧ levels (trace s') = levels (trace s) ∧
  ((tx_index s' = tx_index s ∧ pushed (trace s') = pushed (trace s))
   ∨ (tx_index s < NUM_DATA ∧ tx_index s' = uint32 (tx_index s + 1)
      ∧ pushed (trace s')
        = pushed (trace s) ++ [load (tx_data s) (tx_index s)])).
Proof.
  cbv zeta.
  destruct (tx_handler_cases s)
    as [(Hlt & w & bs & Hp & Ht & [-> | ->]) | (Hge & ->)]; simpl.
  - destruct Hp as (P1 & P2 & P3 & P4 & P5 & P6 & P7 & P8 & P9).
    destruct (polls_read bs) as (B1 & B2 & B3).
    rewrite Ht, pushed_app, taken_app, levels_app, B1, B2, B3, !app_nil_r.
    split_and!; try done. by left.
  - destruct Hp as (P1 & P2 & P3 & P4 & P5 & P6 & P7 & P8 & P9).
    destruct (polls_read bs) as (B1 & B2 & B3).
    rewrite !pushed_app, !taken_app, !levels_app, Ht,
      pushed_app, taken_app, levels_app, B1, B2, B3, !app_nil_r.
    split_and!; try done. by right.
  - rewrite pushed_app, taken_app, levels_app, !app_nil_r.
    split_and!; try done. by left.
Qed.

(** What a receive interrupt changes besides the receive side. *)
Lemma rx_step_effect LIMIT ws s :
  ∃ s', step LIMIT (RxIrq ws) s = Ret tt s'
    ∧ received (rxfifo s ++ ws) s s'
    ∧ pushed (trace s') = pushed (trace s)
    ∧ levels (trace s') = levels (trace s)
    ∧ taken (trace s') = taken (trace s) ++ rxfifo s ++ ws.
Proof.
  destruct (rx_handler_trace LIMIT (set_rxfifo (rxfifo s ++ ws) s))
    as (s' & E & R & _ & _ & _ & T).
  exists s'. split; [by unfold step, bind, rx_arrive, modify|].
  split; [done|]. simpl in T.
  destruct (drain_calls_read (rxfifo s ++ ws)) as (D1 & D2).
  rewrite T, !pushed_app, !levels_app, !taken_app, D1, D2, taken_drain_calls.
  by destruct (uint32 (NUM_DATA - rx_index s') <? LIMIT);
    rewrite ?app_nil_r.
Qed.

(** What a turn of the main loop changes. *)
Lemma main_turn_effect s :
  ∃ s', main_loop_body s = Ret tt s'
    ∧ tx_index s' = tx_index s ∧ rx_index s' = rx_index s
    ∧ tx_data s' = tx_data s ∧ rx_data s' = rx_data s
    ∧ stray s' = stray s ∧ rxfifo s' = rxfifo s ∧ txfull s' = txfull s
    ∧ pushed (trace s') = pushed (trace s)
    ∧ taken (trace s') = taken (trace s)
    ∧ (flag s = 1 → flag s' = 0)
    ∧ (flag s ≠ 1 →
       flag s' = flag s ∧ led s' = led s ∧ trace s' = trace s).
Proof.
  rewrite main_loop_body_eq. eexists; split; [done|].
  destruct (Z.eqb_spec (flag s) 1) as [E|E].
  - destruct (set_levels_read
                (verdict (tx_data s) (rx_data s) <$> seqZ 0 NUM_DATA))
      as (L1 & L2 & L3).
    unfold set_flag, indicate; cbn [tx_index rx_index tx_data rx_data stray
                                      rxfifo txfull trace flag].
    rewrite pushed_app, taken_app, L1, L2, !app_nil_r.
    split_and!; done.
  - split_and!; done.
Qed.

(** ** The transmit side over any schedule *)

Lemma take_succ_load (T : list Z) i :
  0 ≤ i → (Z.to_nat i < length T)%nat →
  take (Z.to_nat (i + 1)) T = take (Z.to_nat i) T ++ [load T i].
Proof.
  intros H0 Hi. replace (Z.to_nat (i + 1)) with (S (Z.to_nat i)) by lia.
  destruct (lookup_lt_is_Some_2 T (Z.to_nat i) Hi) as [x Hx].
  rewrite (take_S_r _ _ x Hx). unfold load. by rewrite Hx.
Qed.

Lemma tx_in_order_step LIMIT T e s :
  length T = Z.to_nat NUM_DATA →
  tx_in_order T s →
  tx_in_order T (final (step LIMIT e s)) ∧ tx_index s ≤ tx_index (final (step LIMIT e s)).
Proof.
  intros HT (Hi & Hd & Hp). unfold tx_in_order. destruct e as [|ws|]; simpl step.
  - destruct (tx_step_effect s)
      as (_ & _ & E3 & _ & _ & _ & _ & _ & _ & [[E1 E2] | (Hlt & E1 & E2)]).
    + rewrite E1, E2, E3. split_and!; try done; lia.
    + rewrite E1, E2, E3, Hd, Hp.
      rewrite uint32_small by (unfold NUM_DATA in Hlt; lia).
      rewrite take_succ_load by (rewrite ?HT; lia).
      split_and!; try done; lia.
  - destruct (rx_step_effect LIMIT ws s) as (s' & E & R & P & _).
    unfold step in E. rewrite E. simpl.
    destruct R as (R1 & R2 & _). rewrite R1, R2, P.
    split_and!; try done; lia.
  - destruct (main_turn_effect s) as (s' & E & M1 & _ & M3 & _ & _ & _ & _ & M8 & _).
    rewrite E. simpl. rewrite M1, M3, M8. split_and!; try done; lia.
Qed.




(** How the set-up of [main] can end. *)
Lemma main_setup_cases LIMIT s :
  (bsp_ok s = false ∧ main_setup LIMIT s = Halts (halted s))
  ∨ (bsp_ok s = true ∧
     ∃ t w bs,
       (length (tx_data s) = Z.to_nat NUM_DATA → t = seqZ 0 NUM_DATA)
       ∧ only_polled (armed t s) w
       ∧ trace w = trace s ++ cybsp_init true :: arm_calls
                   ++ (XMC_USIC_CH_TXFIFO_IsFull <$> bs)
       ∧ (main_setup LIMIT s = Spins w
          ∨ main_setup LIMIT s = Ret tt (seeded LIMIT w))).
Proof.
  destruct (main_setup_eq LIMIT s) as (t & E & Ht). rewrite E.
  destruct (bsp_ok s); [right|by left]. split; [done|].
  destruct (wait_outcome (armed t s)) as (w & bs & Hw & Hp & Htr).
  exists t, w, bs. split; [done|]. split; [done|].
  split.
  - rewrite Htr. unfold armed, logs, log. simpl. by rewrite <- !app_assoc.
  - destruct Hw as [-> | ->]; [by right|by left].
Qed.

Lemma arm_calls_read :
  pushed arm_calls = [] ∧ taken arm_calls = [] ∧ levels arm_calls = [].
Proof. done. Qed.

Lemma run_in_order LIMIT T es s :
  length T = Z.to_nat NUM_DATA →
  tx_in_order T s → tx_in_order T (final (run LIMIT es s)).
Proof.
  intros HT. apply (run_final_inv LIMIT (tx_in_order T)).
  intros e x Hx. by apply tx_in_order_step.
Qed.

(** The first push is the set-up's own: a set-up that returns leaves the
    transmit side in order, with the buffer filled. *)
Lemma setup_in_order LIMIT s s1 :
  tx_index s = 0 → pushed (trace s) = [] →
  length (tx_data s) = Z.to_nat NUM_DATA →
  main_setup LIMIT s = Ret tt s1 →
  tx_in_order (seqZ 0 NUM_DATA) s1.
Proof.
  intros H0 Hp Hlen E.
  destruct (main_setup_cases LIMIT s)
    as [(_ & E') | (_ & t & w & bs & Ht & Hw & Htr & [E' | E'])];
    rewrite E in E'; try discriminate.
  injection E' as ->. specialize (Ht Hlen). subst t.
  destruct Hw as (W1 & _ & _ & W4 & _). simpl in W1, W4.
  destruct (polls_read bs) as (B1 & _).
  unfold tx_in_order, seeded.
  match goal with |- context [rx_adjust LIMIT ?d] =>
    destruct (rx_adjust_fields LIMIT d) as (F1 & _ & _ & F4 & _ & _ & F7)
  end.
  rewrite F1, F4, F7. simpl. rewrite W1, W4, H0.
  split_and!; try done.
  rewrite !pushed_app, Htr, pushed_app, Hp.
  change (cybsp_init true :: arm_calls ++ (XMC_USIC_CH_TXFIFO_IsFull <$> bs))
    with ((cybsp_init true :: arm_calls) ++ (XMC_USIC_CH_TXFIFO_IsFull <$> bs)).
  rewrite pushed_app, B1.
  by destruct (uint32 (NUM_DATA - rx_index w) <? LIMIT).
Qed.



(** ** Sending the whole buffer *)

Lemma tx_run_pushes LIMIT ks : ∀ rest s,
  0 ≤ tx_index s →
  tx_index s + Z.of_nat (length ks) ≤ NUM_DATA →
  txfull s = answers ks ++ rest →
  ∃ s', run LIMIT (replicate (length ks) TxIrq) s = Ret tt s'
    ∧ tx_index s' = tx_index s + Z.of_nat (length ks)
    ∧ txfull s' = rest.
Proof.
  induction ks as [|k ks IH]; intros rest s H0 Hle Hs.
  - exists s. simpl. split_and!; [done|lia|done].
  - simpl length in Hle |- *.
    assert (Hlt : tx_index s < NUM_DATA) by lia.
    assert (Hs' : txfull s = replicate k true ++ false :: (answers ks ++ rest)).
    { rewrite Hs. unfold answers. simpl. by rewrite <- !app_assoc. }
    pose proof (tx_handler_push k _ s Hlt Hs') as E.
    rewrite replicate_S, (run_cons LIMIT TxIrq _ _ _ E).
    match type of E with _ = Ret tt ?s1 =>
      destruct (IH rest s1) as (s' & E' & I1 & I2)
    end.
    + simpl. apply uint32_range.
    + simpl. rewrite uint32_small by (unfold NUM_DATA in Hlt; lia). lia.
    + done.
    + exists s'. split; [done|]. split; [|done].
      rewrite I1. simpl.
      rewrite uint32_small by (unfold NUM_DATA in Hlt; lia). lia.
Qed.

(** X4: when the start succeeds and the FIFO, full some number of
    times before each push, always frees a slot in the end, the set-up
    and the [NUM_DATA - 1] transmit interrupts after it push the whole
    buffer, 0 to [NUM_DATA - 1] in order, and leave [tx_index] at
    [NUM_DATA]; the interrupt after that pushes nothing and disables the
    FIFO event and its own line. *)
Theorem tx_sends_whole_buffer LIMIT k ks rest s :
  bsp_ok s = true → tx_index s = 0 → pushed (trace s) = [] →
  length (tx_data s) = Z.to_nat NUM_DATA →
  length ks = Z.to_nat (NUM_DATA - 1) →
  txfull s = answers (k :: ks) ++ rest →
  ∃ s', system LIMIT (replicate (length ks) TxIrq) s = Ret tt s'
    ∧ tx_index s' = NUM_DATA
    ∧ pushed (trace s') = seqZ 0 NUM_DATA
    ∧ txfull s' = rest
    ∧ USIC0_0_IRQHandler s'
      = Ret tt (logs [XMC_USIC_CH_TXFIFO_DisableEvent;
                      NVIC_DisableIRQ USIC0_0_IRQn] s').
Proof.
  intros Hok H0 Hp Hlen Hks Hs.
  assert (Hs' : txfull s = replicate k true ++ false :: (answers ks ++ rest)).
  { rewrite Hs. unfold answers. simpl. by rewrite <- !app_assoc. }
  destruct (main_setup_returns LIMIT k _ s Hok Hs') as (t & E & _).
  match type of E with _ = Ret tt ?s1 =>
    destruct (tx_run_pushes LIMIT ks rest s1) as (s' & E' & I1 & I2);
    [| | |assert (H1 : tx_index s1 = 1)]
  end.
  - unfold seeded.
    match goal with |- context [rx_adjust LIMIT ?d] =>
      destruct (rx_adjust_fields LIMIT d) as (-> & _)
    end. simpl. apply uint32_range.
  - unfold seeded.
    match goal with |- context [rx_adjust LIMIT ?d] =>
      destruct (rx_adjust_fields LIMIT d) as (-> & _)
    end. simpl. rewrite H0, Hks. by vm_compute.
  - unfold seeded, rx_adjust.
    by match goal with |- context [if ?c then _ else _] => destruct c end.
  - unfold seeded.
    match goal with |- context [rx_adjust LIMIT ?d] =>
      destruct (rx_adjust_fields LIMIT d) as (-> & _)
    end. simpl. rewrite H0. reflexivity.
  - exists s'.
    assert (Esys : system LIMIT (replicate (length ks) TxIrq) s = Ret tt s').
    { unfold system, bind. by rewrite E. }
    assert (HN : tx_index s' = NUM_DATA).
    { rewrite I1, H1, Hks. unfold NUM_DATA. simpl. lia. }
    split; [done|]. split; [done|].
    pose proof (setup_in_order LIMIT s _ H0 Hp Hlen E) as Hset.
    destruct (run_in_order LIMIT (seqZ 0 NUM_DATA) (replicate (length ks) TxIrq)
                _ eq_refl Hset) as (_ & _ & Hpush).
    rewrite E' in Hpush. simpl in Hpush. rewrite HN in Hpush.
    split; [done|]. split; [done|].
    apply tx_handler_done. lia.
Qed.

Lemma tx_sends_whole_buffer_witness :
  ∃ s', system 7 (replicate 8 TxIrq)
          (reset_state true (answers [1; 0; 0; 2; 0; 0; 0; 0; 0]%nat ++ [true]))
        = Ret tt s'
    ∧ tx_index s' = NUM_DATA
    ∧ pushed (trace s') = seqZ 0 NUM_DATA.
Proof.
  destruct (tx_sends_whole_buffer 7 1%nat [0; 0; 2; 0; 0; 0; 0; 0]%nat [true]
              (reset_state true (answers [1; 0; 0; 2; 0; 0; 0; 0; 0]%nat ++ [true]))
              eq_refl eq_refl eq_refl eq_refl eq_refl eq_refl)
    as (s' & E & H1 & H2 & _).
  exists s'. split_and!; [exact E|exact H1|exact H2].
Defined.

(** ** When the flag is not raised *)

Lemma words_of_cons e es :
  words_of (e :: es)
  = match e with RxIrq ws => ws | _ => [] end ++ words_of es.
Proof. by destruct e. Qed.

(** As long as no run of the receive handler ends with the cursor on
    [NUM_DATA], nothing raises the flag and nothing drives the LED. *)
Lemma no_signal LIMIT es : ∀ s,
  0 ≤ rx_index s → flag s ≠ 1 →
  rx_index s + Z.of_nat (length (rxfifo s)) + Z.of_nat (length (words_of es))
    < 2 ^ 32 →
  rx_index s + Z.of_nat (length (rxfifo s)) + Z.of_nat (length (words_of es))
    < NUM_DATA
  ∨ NUM_DATA < rx_index s →
  let s' := final (run LIMIT es s) in
  flag s' = flag s ∧ led s' = led s ∧ levels (trace s') = levels (trace s)
  ∧ rx_index s ≤ rx_index s'.
Proof.
  induction es as [|e es IH]; intros s H0 Hf Hw Hc; cbv zeta.
  { simpl. split_and!; try done; lia. }
  rewrite words_of_cons, length_app in Hw, Hc.
  assert (∃ o, step LIMIT e s = o ∧
            (match o with
             | Ret _ s1 => final (run LIMIT (e :: es) s) = final (run LIMIT es s1)
             | _ => final (run LIMIT (e :: es) s) = final o
             end)
            ∧ flag (final o) = flag s ∧ led (final o) = led s
            ∧ levels (trace (final o)) = levels (trace s)
            ∧ rx_index s ≤ rx_index (final o)
            ∧ rx_index (final o) + Z.of_nat (length (rxfifo (final o)))
              + Z.of_nat (length (words_of es)) < 2 ^ 32
            ∧ (rx_index (final o) + Z.of_nat (length (rxfifo (final o)))
               + Z.of_nat (length (words_of es)) < NUM_DATA
               ∨ NUM_DATA < rx_index (final o)))
    as (o & Eo & Hrun & F1 & F2 & F3 & F4 & F5 & F6).
  { eexists; split; [reflexivity|]. split.
    { simpl run. unfold bind. by destruct (step LIMIT e s) as [[] ?|?|?]. }
    destruct e as [|ws|]; simpl step.
    - destruct (tx_step_effect s)
        as (E1 & E2 & _ & _ & _ & E6 & E7 & _ & E9 & _).
      rewrite E1, E2, E6, E7, E9. simpl in Hw, Hc.
      split_and!; try done; lia.
    - destruct (rx_step_effect LIMIT ws s)
        as (s1 & E & R & _ & Lv & _).
      unfold step in E. rewrite E. simpl final.
      destruct R as (_ & _ & _ & _ & R5 & R6 & R7 & R8 & _).
      rewrite length_app in R8.
      rewrite R8 in * by lia. rewrite uint32_small in * by lia.
      rewrite R6, R5, Lv, R7. simpl length.
      destruct (Z.eqb_spec (rx_index s + Z.of_nat (length (rxfifo s) + length ws))
                           NUM_DATA) as [E'|_]; [lia|].
      split_and!; try done; lia.
    - destruct (main_turn_effect s)
        as (s1 & E & _ & M2 & _ & _ & _ & M6 & _ & _ & _ & _ & M11).
      rewrite E. simpl final. destruct (M11 Hf) as (N1 & N2 & N3).
      rewrite M2, M6, N1, N2, N3. simpl in Hw, Hc.
      split_and!; try done; lia. }
  subst o. destruct (step LIMIT e s) as [[] s1|s1|s1]; simpl in *;
    rewrite Hrun; [|split_and!; done..].
  destruct (IH s1) as (I1 & I2 & I3 & I4); [lia|congruence|done|done|].
  split_and!; try congruence. lia.
Qed.

(** X5: while the words received, counted from the cursor, number
    fewer than [NUM_DATA], no schedule of interrupts and loop turns
    raises the flag or drives the LED, however it ends: the indicator is
    not touched before the last expected byte is in. *)
Theorem led_untouched_before_completion LIMIT es s :
  0 ≤ rx_index s → flag s ≠ 1 →
  rx_index s + Z.of_nat (length (rxfifo s)) + Z.of_nat (length (words_of es))
    < NUM_DATA →
  let s' := final (run LIMIT es s) in
  flag s' = flag s ∧ led s' = led s ∧ levels (trace s') = levels (trace s).
Proof.
  intros H0 Hf Hlt.
  destruct (no_signal LIMIT es s) as (I1 & I2 & I3 & _);
    [done|done|unfold NUM_DATA in Hlt; lia|by left|done].
Qed.

Lemma led_untouched_before_completion_witness :
  let s' := final (run 7 [RxIrq [0; 1; 2]; MainTurn; TxIrq; RxIrq [3; 4; 5; 6; 7];
                          MainTurn]
                       first_cycle_start) in
  flag s' = 0 ∧ led s' = None ∧ levels (trace s') = [].
Proof.
  exact (led_untouched_before_completion 7
           [RxIrq [0; 1; 2]; MainTurn; TxIrq; RxIrq [3; 4; 5; 6; 7]; MainTurn]
           first_cycle_start
           ltac:(vm_compute; discriminate) ltac:(vm_compute; discriminate)
           ltac:(vm_compute; reflexivity)).
Defined.



(** ** A FIFO that stays full *)

Lemma while_full_spins_at k : ∀ fuel s,
  txfull s = replicate k true → (k < fuel)%nat →
  while fuel hal_TXFIFO_IsFull (ret tt) s
  = Spins (logs (replicate k (XMC_USIC_CH_TXFIFO_IsFull true)) (set_txfull [] s)).
Proof.
  induction k as [|k IH]; intros fuel s Hs Hf;
    (destruct fuel as [|fuel]; [lia|]); simpl in Hs |- *;
    unfold bind at 1, hal_TXFIFO_IsFull at 1; rewrite Hs.
  - unfold logs, set_txfull. simpl. rewrite app_nil_r, <- Hs. by destruct s.
  - unfold bind at 1, ret at 1.
    rewrite (IH fuel); [|done|lia].
    unfold logs, log, set_txfull. simpl. by rewrite <- app_assoc.
Qed.

Lemma wait_spins k s :
  txfull s = replicate k true →
  wait_txfifo_not_full s
  = Spins (logs (replicate k (XMC_USIC_CH_TXFIFO_IsFull true)) (set_txfull [] s)).
Proof.
  intros Hs. unfold wait_txfifo_not_full. apply while_full_spins_at; [done|].
  rewrite Hs, length_replicate. lia.
Qed.

(** X7: when the transmit FIFO answers "full" for as long as it is
    watched, neither the set-up of [main] nor the transmit handler gets
    past its busy wait: each has only polled, no byte is pushed, and
    [tx_index] is where it was.  There is no time-out. *)
Theorem full_fifo_blocks_push LIMIT k s :
  txfull s = replicate k true →
  (tx_index s < NUM_DATA →
   ∃ w, USIC0_0_IRQHandler s = Spins w
     ∧ trace w = trace s ++ replicate k (XMC_USIC_CH_TXFIFO_IsFull true)
     ∧ tx_index w = tx_index s ∧ pushed (trace w) = pushed (trace s))
  ∧ (bsp_ok s = true →
     ∃ w, main_setup LIMIT s = Spins w
       ∧ trace w = trace s ++ cybsp_init true :: arm_calls
                   ++ replicate k (XMC_USIC_CH_TXFIFO_IsFull true)
       ∧ tx_index w = tx_index s ∧ pushed (trace w) = pushed (trace s)).
Proof.
  intros Hs.
  assert (Hp : pushed (replicate k (XMC_USIC_CH_TXFIFO_IsFull true)) = []).
  { clear. induction k as [|k IH]; [done|]. exact IH. }
  split.
  - intros Hlt. rewrite tx_handler_eq, (proj2 (Z.ltb_lt _ _) Hlt).
    rewrite (wait_spins k s Hs). eexists; split; [done|]. simpl.
    by rewrite pushed_app, Hp, app_nil_r.
  - intros Hok. destruct (main_setup_eq LIMIT s) as (t & -> & _).
    rewrite Hok, (wait_spins k (armed t s)) by done.
    eexists; split; [done|]. simpl.
    rewrite <- !app_assoc. simpl.
    split_and!; try done.
    change (trace s ++ cybsp_init true :: NVIC_SetPriority USIC0_0_IRQn USIC0_0_IRQn_PRIORITY
            :: NVIC_EnableIRQ USIC0_0_IRQn :: NVIC_EnableIRQ USIC0_1_IRQn
            :: NVIC_SetPriority USIC0_1_IRQn USIC0_1_IRQn_PRIORITY
            :: XMC_UART_CH_Start :: replicate k (XMC_USIC_CH_TXFIFO_IsFull true))
      with (trace s ++ (cybsp_init true :: arm_calls)
            ++ replicate k (XMC_USIC_CH_TXFIFO_IsFull true)).
    by rewrite !pushed_app, Hp, !app_nil_r.
Qed.

Lemma full_fifo_blocks_push_witness :
  (∃ w, USIC0_0_IRQHandler (set_txfull [true; true; true] first_cycle_start) = Spins w
     ∧ tx_index w = 1)
  ∧ (∃ w, main_setup 7 (reset_state true [true; true]) = Spins w
       ∧ tx_index w = 0 ∧ pushed (trace w) = []).
Proof.
  split.
  - destruct (proj1 (full_fifo_blocks_push 7 3
                       (set_txfull [true; true; true] first_cycle_start) eq_refl)
                ltac:(vm_compute; reflexivity))
      as (w & E & _ & H & _).
    exists w. split; [exact E|exact H].
  - destruct (proj2 (full_fifo_blocks_push 7 2 (reset_state true [true; true])
                       eq_refl) eq_refl)
      as (w & E & _ & H1 & H2).
    exists w. split_and!; [exact E|exact H1|exact H2].
Defined.

(** ** The receive buffer as a record of the words read *)








(** ** From the set-up to the verdict *)

Lemma seeded_effect LIMIT w :
  let s' := seeded LIMIT w in
  rx_index s' = rx_index w ∧ flag s' = flag w ∧ tx_data s' = tx_data w ∧
  rx_data s' = rx_data w ∧ stray s' = stray w ∧ rxfifo s' = rxfifo w ∧
  led s' = led w ∧ levels (trace s') = levels (trace w) ∧
  taken (trace s') = taken (trace w).
Proof.
  unfold seeded, rx_adjust.
  match goal with |- context [if ?c then _ else _] => destruct c end; simpl;
    rewrite ?levels_app, ?taken_app, ?app_nil_r; done.
Qed.

Lemma setup_rx_side LIMIT k rest s :
  bsp_ok s = true →
  txfull s = replicate k true ++ false :: rest →
  ∃ s1, main_setup LIMIT s = Ret tt s1
    ∧ (length (tx_data s) = Z.to_nat NUM_DATA → tx_data s1 = seqZ 0 NUM_DATA)
    ∧ rx_index s1 = rx_index s ∧ flag s1 = flag s ∧ rx_data s1 = rx_data s
    ∧ stray s1 = stray s ∧ rxfifo s1 = rxfifo s ∧ led s1 = led s
    ∧ levels (trace s1) = levels (trace s)
    ∧ taken (trace s1) = taken (trace s).
Proof.
  intros Hok Hs.
  destruct (main_setup_returns LIMIT k rest s Hok Hs) as (t & E & Ht).
  destruct (main_setup_cases LIMIT s)
    as [(Hno & _) | (_ & t' & w & bs & Ht' & Hw & Htr & [E' | E'])];
    [congruence|rewrite E in E'; discriminate|].
  exists (seeded LIMIT w). split; [done|].
  destruct (seeded_effect LIMIT w) as (S1 & S2 & S3 & S4 & S5 & S6 & S7 & S8 & S9).
  destruct Hw as (_ & W2 & W3 & W4 & W5 & W6 & _ & W8 & W9).
  simpl in W2, W3, W4, W5, W6, W8, W9.
  destruct (polls_read bs) as (_ & B2 & B3).
  rewrite S1, S2, S3, S4, S5, S6, S7, S8, S9, W2, W3, W4, W5, W6, W8, W9, Htr.
  change (cybsp_init true :: arm_calls ++ (XMC_USIC_CH_TXFIFO_IsFull <$> bs))
    with ((cybsp_init true :: arm_calls) ++ (XMC_USIC_CH_TXFIFO_IsFull <$> bs)).
  rewrite !levels_app, !taken_app, B2, B3, !app_nil_r.
  split_and!; done.
Qed.

Lemma rx_run_levels LIMIT bursts : ∀ s,
  ∃ s', run LIMIT (RxIrq <$> bursts) s = Ret tt s'
    ∧ levels (trace s') = levels (trace s).
Proof.
  induction bursts as [|ws rest IH]; intros s; [by exists s|].
  destruct (rx_step_effect LIMIT ws s) as (s1 & E & _ & _ & L1 & _).
  destruct (IH s1) as (s' & E' & L').
  exists s'. rewrite fmap_cons, (run_cons _ _ _ _ _ E).
  split; [done|congruence].
Qed.

(** X9: from the set-up of [main], through a receive session that
    brings [NUM_DATA] words in any split, to the next two turns of the
    main loop: the first turn drives one level per index, the verdict of
    comparing the byte sent, the index itself, with the low byte of the
    word received, and clears the flag; the second turn does nothing.  In
    particular, when every word carries in its low byte the byte that was
    sent, the LED is driven HIGH nine times and stays HIGH. *)
Theorem loopback_end_to_end LIMIT k rest bursts s :
  bsp_ok s = true → tx_index s = 0 → rx_index s = 0 → rxfifo s = [] →
  length (tx_data s) = Z.to_nat NUM_DATA →
  length (rx_data s) = Z.to_nat NUM_DATA →
  txfull s = replicate k true ++ false :: rest →
  length (concat bursts) = Z.to_nat NUM_DATA →
  ∃ s', system LIMIT ((RxIrq <$> bursts) ++ [MainTurn; MainTurn]) s = Ret tt s'
    ∧ tx_data s' = seqZ 0 NUM_DATA
    ∧ rx_data s' = uint8 <$> concat bursts
    ∧ flag s' = 0
    ∧ levels (trace s')
      = levels (trace s)
        ++ (verdict (seqZ 0 NUM_DATA) (uint8 <$> concat bursts) <$> seqZ 0 NUM_DATA)
    ∧ led s' = Some (verdict (seqZ 0 NUM_DATA) (uint8 <$> concat bursts)
                       (NUM_DATA - 1))
    ∧ (uint8 <$> concat bursts = seqZ 0 NUM_DATA →
       led s' = Some GPIO_OUTPUT_LEVEL_HIGH
       ∧ levels (trace s')
         = levels (trace s) ++ replicate (Z.to_nat NUM_DATA) GPIO_OUTPUT_LEVEL_HIGH).
Proof.
  intros Hok Ht0 Hr0 Hf Htx Hrx Hs Hn.
  destruct (setup_rx_side LIMIT k rest s Hok Hs)
    as (s1 & E1 & T1 & R1 & F1 & D1 & _ & Q1 & _ & L1 & _).
  specialize (T1 Htx).
  destruct (rx_run_in_bounds LIMIT bursts s1)
    as (s2 & E2 & I1 & _ & _ & _ & I5 & I6 & I7 & I8);
    [congruence|lia|rewrite R1, Hr0, Hn; unfold NUM_DATA; lia|].
  specialize (I7 ltac:(by rewrite D1)).
  rewrite R1, Hr0, D1 in I7.
  rewrite overwrite_all in I7 by (by rewrite length_fmap, Hn, Hrx).
  assert (Hflag : flag s2 = 1).
  { apply I8.
    - intros ->. simpl in Hn. unfold NUM_DATA in Hn. lia.
    - rewrite I1, R1, Hr0, Hn. unfold NUM_DATA. lia. }
  destruct (rx_run_levels LIMIT bursts s1) as (s2' & E2' & L2).
  rewrite E2 in E2'. injection E2' as <-.
  pose (s3 := set_flag 0
                (indicate (verdict (tx_data s2) (rx_data s2) <$> seqZ 0 NUM_DATA) s2)).
  assert (E3 : step LIMIT MainTurn s2 = Ret tt s3).
  { simpl. by rewrite main_loop_body_eq, Hflag. }
  assert (E4 : step LIMIT MainTurn s3 = Ret tt s3).
  { simpl. by rewrite main_loop_body_eq. }
  exists s3. split.
  { unfold system, bind. rewrite E1, (run_app _ _ _ _ _ E2).
    rewrite (run_cons _ _ _ _ _ E3), (run_cons _ _ _ _ _ E4). done. }
  destruct (set_levels_read (verdict (tx_data s2) (rx_data s2) <$> seqZ 0 NUM_DATA))
    as (_ & _ & V3).
  assert (Hlv : levels (trace s3)
                = levels (trace s)
                  ++ (verdict (seqZ 0 NUM_DATA) (uint8 <$> concat bursts)
                      <$> seqZ 0 NUM_DATA)).
  { unfold s3, set_flag, indicate; cbn [trace].
    by rewrite levels_app, V3, L2, L1, I5, I7, T1. }
  assert (Hled : led s3 = Some (verdict (seqZ 0 NUM_DATA) (uint8 <$> concat bursts)
                                  (NUM_DATA - 1))).
  { unfold s3, set_flag, indicate; cbn [led].
    by rewrite last_verdict, I5, I7, T1. }
  split_and!; try done.
  - unfold s3. simpl. congruence.
  - intros Heq. rewrite Hled, Hlv, Heq. done.
Qed.

Lemma loopback_end_to_end_witness :
  ∃ s', system 7 ((RxIrq <$> [[256; 1; 2; 3; 4; 5; 6; 7]; [8]])
                  ++ [MainTurn; MainTurn])
          (reset_state true [true; false]) = Ret tt s'
    ∧ led s' = Some GPIO_OUTPUT_LEVEL_HIGH
    ∧ flag s' = 0.
Proof.
  destruct (loopback_end_to_end 7 1%nat [] [[256; 1; 2; 3; 4; 5; 6; 7]; [8]]
              (reset_state true [true; false])
              eq_refl eq_refl eq_refl eq_refl eq_refl eq_refl eq_refl eq_refl)
    as (s' & E & _ & _ & F & _ & _ & H).
  exists s'. split_and!; [exact E| |exact F].
  apply H. reflexivity.
Defined.

(** ** Words arriving one at a time *)

Lemma rx_limit_now_app LIMIT tr1 tr2 :
  rx_limit_now LIMIT (tr1 ++ tr2) = rx_limit_now (rx_limit_now LIMIT tr1) tr2.
Proof. unfold rx_limit_now. by rewrite fold_left_app. Qed.

Lemma rx_limit_now_drain m ws : rx_limit_now m (drain_calls ws) = m.
Proof.
  unfold drain_calls. rewrite rx_limit_now_app. simpl.
  induction ws as [|w ws IH]; [done|]. exact IH.
Qed.

Lemma deliver_gauge LIMIT w s :
  0 ≤ rx_index s →
  rx_index s + Z.of_nat (length (rxfifo s)) + 1 < 2 ^ 32 →
  ∃ s', deliver LIMIT w s = Ret tt s'
    ∧ rx_gauge LIMIT s' = gauge_deliver LIMIT (rx_gauge LIMIT s).
Proof.
  intros H0 Hw. unfold deliver, bind, rx_arrive, modify.
  cbn [trace rxfifo set_rxfifo]. rewrite length_app. simpl length.
  unfold rx_gauge, gauge_deliver.
  replace (Z.of_nat (length (rxfifo s) + 1)) with (Z.of_nat (length (rxfifo s)) + 1)
    by lia.
  destruct (rx_limit_now LIMIT (trace s) <? Z.of_nat (length (rxfifo s)) + 1).
  - destruct (rx_handler_trace LIMIT (set_rxfifo (rxfifo s ++ [w]) s))
      as (s' & E & R & _ & _ & _ & T).
    exists s'. split; [done|].
    destruct R as (_ & _ & _ & _ & _ & R6 & R7 & R8 & _).
    simpl in R7, R8, T. rewrite length_app in R8. simpl length in R8.
    assert (Hi : rx_index s' = rx_index s + (Z.of_nat (length (rxfifo s)) + 1)).
    { rewrite R8 by lia. rewrite uint32_small by lia. lia. }
    rewrite Hi in R7, T.
    rewrite Hi, R6, R7, T, !rx_limit_now_app, rx_limit_now_drain. simpl length.
    repeat f_equal.
    by destruct (uint32 (NUM_DATA - (rx_index s + (Z.of_nat (length (rxfifo s)) + 1)))
                 <? LIMIT).
  - eexists; split; [done|]. simpl. rewrite length_app. simpl length.
    repeat f_equal. lia.
Qed.

Lemma gauge_deliver_sum LIMIT c v m f :
  let '(c', v', _, _) := gauge_deliver LIMIT (c, v, m, f) in
  c' + v' = c + v + 1 ∧ (0 ≤ c → 0 ≤ v → 0 ≤ c' ∧ 0 ≤ v').
Proof.
  unfold gauge_deliver. destruct (m <? v + 1); split; lia.
Qed.

Lemma deliver_each_gauge LIMIT ws : ∀ s,
  0 ≤ rx_index s →
  rx_index s + Z.of_nat (length (rxfifo s)) + Z.of_nat (length ws) < 2 ^ 32 →
  ∃ s', deliver_each LIMIT ws s = Ret tt s'
    ∧ rx_gauge LIMIT s'
      = Nat.iter (length ws) (gauge_deliver LIMIT) (rx_gauge LIMIT s).
Proof.
  induction ws as [|w ws IH]; intros s H0 Hw; [by exists s|].
  simpl length in Hw.
  destruct (deliver_gauge LIMIT w s) as (s1 & E1 & G1); [done|lia|].
  pose proof (gauge_deliver_sum LIMIT (rx_index s) (Z.of_nat (length (rxfifo s)))
                (rx_limit_now LIMIT (trace s)) (flag s)) as Hsum.
  fold (rx_gauge LIMIT s) in Hsum. rewrite <- G1 in Hsum.
  unfold rx_gauge in Hsum. destruct Hsum as [Hs1 Hs2].
  destruct (IH s1) as (s' & E' & G'); [lia|lia|].
  exists s'. split.
  - simpl. unfold bind. by rewrite E1.
  - rewrite G', G1. simpl length. by rewrite Nat.iter_succ_r.
Qed.

(** X10: [NUM_DATA] words arriving one at a time, the receive
    interrupt raised whenever the FIFO holds more words than the limit in
    force, for a configured limit from 0 to 7 (the FIFO has 8 places).
    For every limit but 1 and 4 the run ends with all words taken and the
    flag up; the shipped limit of seven is among these.  For the limits 1
    and 4 the bytes still expected come to equal the limit exactly, the
    handler's test [remaining < limit] leaves the limit as it is, and the
    last words stay in the FIFO with no interrupt due: the flag is never
    raised. *)
Theorem delivery_completes_or_stalls LIMIT data s :
  0 ≤ LIMIT ≤ 7 →
  length data = Z.to_nat NUM_DATA →
  rx_index s = 0 → rxfifo s = [] → flag s ≠ 1 →
  rx_limit_now LIMIT (trace s) = LIMIT →
  ∃ s', deliver_each LIMIT data s = Ret tt s'
    ∧ (LIMIT ≠ 1 ∧ LIMIT ≠ 4 →
       flag s' = 1 ∧ rx_index s' = NUM_DATA ∧ rxfifo s' = [])
    ∧ (LIMIT = 1 ∨ LIMIT = 4 →
       flag s' = flag s ∧ rx_index s' = NUM_DATA - LIMIT
       ∧ Z.of_nat (length (rxfifo s')) = LIMIT
       ∧ rx_limit_now LIMIT (trace s') = LIMIT).
Proof.
  intros HL Hn H0 Hf Hflag Hlim.
  destruct (deliver_each_gauge LIMIT data s) as (s' & E & G).
  { lia. }
  { rewrite H0, Hf, Hn. unfold NUM_DATA. simpl. lia. }
  exists s'. split; [done|].
  unfold rx_gauge in G. rewrite H0, Hf, Hlim, Hn in G. simpl length in G.
  assert (Hempty : ∀ l : list Z, Z.of_nat (length l) = 0 → l = []).
  { intros [|x l] Hl; [done|simpl in Hl; lia]. }
  assert (LIMIT = 0 ∨ LIMIT = 1 ∨ LIMIT = 2 ∨ LIMIT = 3 ∨ LIMIT = 4
          ∨ LIMIT = 5 ∨ LIMIT = 6 ∨ LIMIT = 7) as Hc by lia.
  repeat (destruct Hc as [-> | Hc]; [
    match type of G with _ = ?rhs =>
      let r := eval vm_compute in rhs in change rhs with r in G
    end;
    injection G as G1 G2 G3 G4;
    split; [intros [? ?]|intros [?|?]]; try lia;
    split_and!; try done; by apply Hempty |]).
  subst LIMIT.
  match type of G with _ = ?rhs =>
    let r := eval vm_compute in rhs in change rhs with r in G
  end.
  injection G as G1 G2 G3 G4.
  split; [intros [? ?]|intros [?|?]]; try lia.
  split_and!; try done. by apply Hempty.
Qed.

Lemma delivery_completes_or_stalls_witness :
  (∃ s', deliver_each 7 [0; 1; 2; 3; 4; 5; 6; 7; 8] first_cycle_start = Ret tt s'
     ∧ flag s' = 1 ∧ rx_index s' = NUM_DATA)
  ∧ (∃ s', deliver_each 4 [0; 1; 2; 3; 4; 5; 6; 7; 8]
             (final (main_setup 4 (reset_state true [false]))) = Ret tt s'
       ∧ flag s' = 0 ∧ rx_index s' = 5).
Proof.
  split.
  - destruct (delivery_completes_or_stalls 7 [0; 1; 2; 3; 4; 5; 6; 7; 8]
                first_cycle_start ltac:(lia) eq_refl eq_refl eq_refl
                ltac:(vm_compute; discriminate) eq_refl)
      as (s' & E & H & _).
    exists s'. split; [exact E|].
    destruct H as (H1 & H2 & _); [lia|]. split; [exact H1|exact H2].
  - destruct (delivery_completes_or_stalls 4 [0; 1; 2; 3; 4; 5; 6; 7; 8]
                (final (main_setup 4 (reset_state true [false])))
                ltac:(lia) eq_refl eq_refl eq_refl
                ltac:(vm_compute; discriminate) eq_refl)
      as (s' & E & _ & H).
    exists s'. split; [exact E|].
    destruct H as (H1 & H2 & _); [right; reflexivity|].
    split; [exact H1|exact H2].
Defined.
